(** * gemini-proxy: the Netlify function [handler] of lp-roadmap-app

    A shallow embedding of [netlify/functions/gemini-proxy.js].  The file
    first models the part of the JavaScript platform that the handler
    touches (strings, IEEE numbers, property reads, [JSON.parse],
    [JSON.stringify], the coercions behind [!x], [x || y] and [x > 0]),
    then the handler itself, written statement by statement after the
    source, and finally the properties of the handler. *)

From Stdlib Require Import ZArith NArith List String Ascii Bool Lia.
From Stdlib Require Import Floats.SpecFloat.
Import ListNotations.

#[local] Set Warnings "-register-all".
Local Open Scope Z_scope.

(** ** Strings

    A JavaScript string is a sequence of UTF-16 code units. *)

Definition code_unit := N.
Definition jsstring := list code_unit.

(** The string whose code units are the characters of a literal. *)
Definition lit (s : string) : jsstring :=
  List.map N_of_ascii (list_ascii_of_string s).

(** JSON text written with single quotes standing for double quotes. *)
Definition jsonlit (s : string) : jsstring :=
  List.map (fun c => if N.eqb c 39 then 34%N else c) (lit s).

Fixpoint jsstring_eqb (a b : jsstring) : bool :=
  match a, b with
  | [], [] => true
  | x :: a', y :: b' => N.eqb x y && jsstring_eqb a' b'
  | _, _ => false
  end.

Fixpoint starts_with (p s : jsstring) : bool :=
  match p, s with
  | [], _ => true
  | x :: p', y :: s' => N.eqb x y && starts_with p' s'
  | _ :: _, [] => false
  end.

(** [s] without its first code unit, when that is [c]. *)
Definition eat (c : code_unit) (s : jsstring) : option jsstring :=
  match s with
  | x :: r => if (x =? c)%N then Some r else None
  | [] => None
  end.

(** [String.prototype.includes]: [p] occurs in [s] as a contiguous run. *)
Fixpoint includes (s p : jsstring) : bool :=
  starts_with p s ||
  match s with
  | [] => false
  | _ :: s' => includes s' p
  end.

(** ** Numbers

    A Number is an IEEE 754 binary64 value; [spec_float] at precision 53
    and maximal exponent 1024 is that format. *)

Definition number := spec_float.
Definition prec : Z := 53.
Definition emax : Z := 1024.

Definition NaN : number := S754_nan.
Definition pos_zero : number := S754_zero false.

(** The Number nearest to [(-1)^neg * m * 10^e] (round to nearest, ties
    to even), as numeric literals and [JSON.parse] compute it. *)
Definition number_of_decimal (neg : bool) (m : Z) (e : Z) : number :=
  match m with
  | Zpos p =>
      match e with
      | Zneg k =>
          SFdiv prec emax (S754_finite neg p 0)
                (S754_finite false (Pos.pow 10 k) 0)
      | _ => binary_round prec emax neg (p * Z.to_pos (10 ^ e))%positive 0
      end
  | _ => S754_zero neg
  end.

Definition number_of_N (n : N) : number :=
  number_of_decimal false (Z.of_N n) 0.

Definition number_eqb (x y : number) : bool :=
  match x, y with
  | S754_zero a, S754_zero b => Bool.eqb a b
  | S754_infinity a, S754_infinity b => Bool.eqb a b
  | S754_nan, S754_nan => true
  | S754_finite a m e, S754_finite b m' e' =>
      Bool.eqb a b && Pos.eqb m m' && Z.eqb e e'
  | _, _ => false
  end.

(** *** Decimal digits *)

Definition digit_unit (d : Z) : code_unit := Z.to_N (48 + d).

Fixpoint digits_of_aux (fuel : nat) (n : Z) (acc : jsstring) : jsstring :=
  match fuel with
  | O => acc
  | S fuel' =>
      if n <? 10 then digit_unit n :: acc
      else digits_of_aux fuel' (n / 10) (digit_unit (n mod 10) :: acc)
  end.

(** The decimal digits of a non-negative integer, most significant
    first; the binary length bounds the number of digits. *)
Definition digits_of (n : Z) : jsstring :=
  digits_of_aux (S (Z.to_nat (Z.log2 n))) n [].

Definition is_digit (c : code_unit) : bool := (48 <=? c)%N && (c <=? 57)%N.

Fixpoint take_digits (s : jsstring) : jsstring * jsstring :=
  match s with
  | c :: s' =>
      if is_digit c then let '(d, r) := take_digits s' in (c :: d, r)
      else ([], s)
  | [] => ([], [])
  end.

Definition digits_value (d : jsstring) : Z :=
  fold_left (fun acc c => 10 * acc + (Z.of_N c - 48)) d 0.

(** *** Number::toString (radix 10) *)

(** [x = num / den] lies in [[10^(n-1), 10^n)]: the integer [n]. *)
Fixpoint scale_up (fuel : nat) (num den : Z) (n : Z) : Z :=
  match fuel with
  | O => n
  | S fuel' =>
      if den <=? num then n else scale_up fuel' (10 * num) den (n - 1)
  end.

Definition decimal_exponent (num den : Z) : Z :=
  if den <=? num
  then Z.of_nat (List.length (digits_of (num / den)))
  else scale_up (S (Z.to_nat (Z.log2 den))) (10 * num) den 0.

(** The two [k]-digit neighbours of [x = num / den], as
    [(s, n)] meaning [s * 10^(n-k)], with the remainder that tells which
    one is nearer. *)
Definition floor_scaled (num den : Z) (n k : Z) : Z * Z * Z :=
  let '(a, b) :=
    if n <=? k then (num * 10 ^ (k - n), den) else (num, den * 10 ^ (n - k)) in
  (a / b, a mod b, b).

Fixpoint shortest_digits (fuel : nat) (x : number) (num den n k : Z)
  : Z * Z * Z :=
  let '(lo, r, b) := floor_scaled num den n k in
  let hi := lo + 1 in
  let lo_ok := number_eqb (number_of_decimal false lo (n - k)) x in
  let hi_ok := number_eqb (number_of_decimal false hi (n - k)) x in
  let pick_hi :=
    match Z.compare (2 * r) b with
    | Lt => false
    | Gt => true
    | Eq => Z.odd lo
    end in
  let norm s := if s =? 10 ^ k then (1, n + 1, 1) else (s, n, k) in
  match fuel with
  | O => (lo, n, k)
  | S fuel' =>
      if lo_ok && hi_ok then norm (if pick_hi then hi else lo)
      else if lo_ok then (lo, n, k)
      else if hi_ok then norm hi
      else shortest_digits fuel' x num den n (k + 1)
  end.

Definition zeros (n : Z) : jsstring := List.repeat 48%N (Z.to_nat n).

Definition format_decimal (s n k : Z) : jsstring :=
  let d := digits_of s in
  if (k <=? n) && (n <=? 21) then d ++ zeros (n - k)
  else if (0 <? n) && (n <=? 21) then
    firstn (Z.to_nat n) d ++ lit "." ++ skipn (Z.to_nat n) d
  else if (-6 <? n) && (n <=? 0) then
    lit "0." ++ zeros (- n) ++ d
  else
    let e := n - 1 in
    let es := (if e <? 0 then lit "-" else lit "+") ++ digits_of (Z.abs e) in
    if k =? 1 then d ++ lit "e" ++ es
    else firstn 1 d ++ lit "." ++ skipn 1 d ++ lit "e" ++ es.

Definition number_to_string (x : number) : jsstring :=
  match x with
  | S754_nan => lit "NaN"
  | S754_zero _ => lit "0"
  | S754_infinity s => (if s then lit "-" else []) ++ lit "Infinity"
  | S754_finite sg m e =>
      let '(num, den) :=
        if 0 <=? e then (Zpos m * 2 ^ e, 1) else (Zpos m, 2 ^ (- e)) in
      let n := decimal_exponent num den in
      let '(s, n', k) :=
        shortest_digits 17 (S754_finite false m e) num den n 1 in
      (if sg then lit "-" else []) ++ format_decimal s n' k
  end.

(** *** StringToNumber *)

(** WhiteSpace and LineTerminator code units, which [StringToNumber]
    strips from both ends. *)
Definition is_str_ws (c : code_unit) : bool :=
  ((9 <=? c) && (c <=? 13) || (c =? 32) || (c =? 160) || (c =? 5760)
   || (8192 <=? c) && (c <=? 8202) || (c =? 8232) || (c =? 8233)
   || (c =? 8239) || (c =? 8287) || (c =? 12288) || (c =? 65279))%N.

Fixpoint trim_start (s : jsstring) : jsstring :=
  match s with
  | c :: s' => if is_str_ws c then trim_start s' else s
  | [] => []
  end.

Definition trim (s : jsstring) : jsstring :=
  rev (trim_start (rev (trim_start s))).

Definition radix_digit (c : code_unit) : option Z :=
  let z := Z.of_N c in
  if is_digit c then Some (z - 48)
  else if (97 <=? z) && (z <=? 102) then Some (z - 87)
  else if (65 <=? z) && (z <=? 70) then Some (z - 55)
  else None.

Fixpoint radix_value (radix : Z) (s : jsstring) (acc : Z) : option Z :=
  match s with
  | [] => Some acc
  | c :: s' =>
      match radix_digit c with
      | Some d => if d <? radix then radix_value radix s' (radix * acc + d)
                  else None
      | None => None
      end
  end.

(** NonDecimalIntegerLiteral: [0x], [0o], [0b] and their capitals. *)
Definition non_decimal (s : jsstring) : option number :=
  match s with
  | 48%N :: p :: ((_ :: _) as d) =>
      let radix :=
        if (p =? 120)%N || (p =? 88)%N then Some 16
        else if (p =? 111)%N || (p =? 79)%N then Some 8
        else if (p =? 98)%N || (p =? 66)%N then Some 2
        else None in
      match radix with
      | Some r =>
          match radix_value r d 0 with
          | Some v => Some (number_of_decimal false v 0)
          | None => None
          end
      | None => None
      end
  | _ => None
  end.

(** ExponentPart, when one starts at [s]: its value and what follows.
    [None] when an [e] is not followed by digits. *)
Definition exponent_part (s : jsstring) : option (Z * jsstring) :=
  match s with
  | c :: r =>
      if (c =? 101)%N || (c =? 69)%N then
        let '(neg, r1) :=
          match eat 45%N r with
          | Some r' => (true, r')
          | None =>
              match eat 43%N r with
              | Some r' => (false, r')
              | None => (false, r)
              end
          end in
        match take_digits r1 with
        | ([], _) => None
        | (d, r2) => Some (if neg then - digits_value d else digits_value d, r2)
        end
      else Some (0, s)
  | [] => Some (0, s)
  end.

(** StrUnsignedDecimalLiteral, which must span the whole of [s]. *)
Definition unsigned_decimal (neg : bool) (s : jsstring) : option number :=
  if jsstring_eqb s (lit "Infinity") then Some (S754_infinity neg)
  else
    let '(ip, s1) := take_digits s in
    let '(fp, s2, dot) :=
      match s1 with
      | 46%N :: r => let '(f, r') := take_digits r in (f, r', true)
      | _ => ([], s1, false)
      end in
    match ip, fp with
    | [], [] => None
    | _, _ =>
        match exponent_part s2 with
        | Some (e, []) =>
            Some (number_of_decimal neg (digits_value (ip ++ fp))
                    (e - Z.of_nat (List.length fp)))
        | _ => None
        end
    end.

Definition StringToNumber (s : jsstring) : number :=
  match trim s with
  | [] => pos_zero
  | (c :: r) as t =>
      match non_decimal t with
      | Some n => n
      | None =>
          let d :=
            if (c =? 45)%N then unsigned_decimal true r
            else if (c =? 43)%N then unsigned_decimal false r
            else unsigned_decimal false t in
          match d with
          | Some n => n
          | None => NaN
          end
      end
  end.

(** ** Values

    The values the handler can meet: what [JSON.parse] builds, and
    [undefined] for an absent property.  An object lists its own
    properties in the order in which the language enumerates them. *)

Inductive jsval : Type :=
| JUndefined
| JNull
| JBool (b : bool)
| JNum (x : number)
| JStr (s : jsstring)
| JArr (elems : list jsval)
| JObj (props : list (jsstring * jsval)).

(** What the engine and the host can throw at the handler. *)
Inductive JsError : Type :=
| TypeError_read (base : jsval) (key : jsstring)
    (* a property read on undefined or null *)
| TypeError_destructure (base : jsval)
    (* an object pattern applied to undefined or null *)
| TypeError_primitive
    (* an object without a callable toString or valueOf *)
| SyntaxError_json (text : jsstring)
    (* text that JSON.parse rejects *)
| HostError (message : jsstring).
    (* a rejection that comes from the host, with its message *)

Inductive completion (A : Type) : Type :=
| Normal (a : A)
| Throw (e : JsError).
Arguments Normal {A} a.
Arguments Throw {A} e.

(** ToBoolean: what [!x], [x || y], [x && y] and [if (x)] test. *)
Definition truthy (v : jsval) : bool :=
  match v with
  | JUndefined | JNull => false
  | JBool b => b
  | JNum (S754_zero _) | JNum S754_nan => false
  | JNum _ => true
  | JStr [] => false
  | JStr _ => true
  | JArr _ | JObj _ => true
  end.

(** [a || b] *)
Definition js_or (a b : jsval) : jsval := if truthy a then a else b.

Fixpoint lookup (k : jsstring) (props : list (jsstring * jsval))
  : option jsval :=
  match props with
  | [] => None
  | (k', v) :: rest => if jsstring_eqb k k' then Some v else lookup k rest
  end.

(** An array index: the canonical decimal form of an integer below
    [2^32 - 1]. *)
Definition array_index (k : jsstring) : option N :=
  match k with
  | [] => None
  | c :: r =>
      let canonical :=
        forallb is_digit k
        && (negb (c =? 48)%N || match r with [] => true | _ => false end) in
      if canonical then
        let v := digits_value k in
        if v <? 4294967295 then Some (Z.to_N v) else None
      else None
  end.

(** [v.k] and [v[k]] for the property names the handler reads
    ([prompt], [systemPrompt], [candidates], [length], [0], [content],
    [parts], [text]): none of them is defined on a built-in prototype, so
    the read finds an own property or [undefined]. *)
Definition Get (v : jsval) (k : jsstring) : completion jsval :=
  match v with
  | JUndefined | JNull => Throw (TypeError_read v k)
  | JBool _ | JNum _ => Normal JUndefined
  | JStr s =>
      if jsstring_eqb k (lit "length")
      then Normal (JNum (number_of_N (N.of_nat (List.length s))))
      else match array_index k with
           | Some i =>
               match nth_error s (N.to_nat i) with
               | Some c => Normal (JStr [c])
               | None => Normal JUndefined
               end
           | None => Normal JUndefined
           end
  | JArr l =>
      if jsstring_eqb k (lit "length")
      then Normal (JNum (number_of_N (N.of_nat (List.length l))))
      else match array_index k with
           | Some i =>
               match nth_error l (N.to_nat i) with
               | Some x => Normal x
               | None => Normal JUndefined
               end
           | None => Normal JUndefined
           end
  | JObj props =>
      match lookup k props with
      | Some x => Normal x
      | None => Normal JUndefined
      end
  end.

(** ToString.  An array joins its elements with commas, [null] and
    [undefined] elements giving the empty string; a plain object gives
    [[object Object]] unless an own [toString] property (never callable in
    parsed JSON) hides the inherited method. *)
Fixpoint ToString (v : jsval) : completion jsstring :=
  match v with
  | JUndefined => Normal (lit "undefined")
  | JNull => Normal (lit "null")
  | JBool b => Normal (if b then lit "true" else lit "false")
  | JNum x => Normal (number_to_string x)
  | JStr s => Normal s
  | JArr l =>
      (fix join (l : list jsval) : completion jsstring :=
         match l with
         | [] => Normal []
         | x :: l' =>
             let sx :=
               match x with
               | JUndefined | JNull => Normal []
               | _ => ToString x
               end in
             match sx with
             | Throw e => Throw e
             | Normal a =>
                 match l' with
                 | [] => Normal a
                 | _ :: _ =>
                     match join l' with
                     | Throw e => Throw e
                     | Normal b => Normal (a ++ lit "," ++ b)
                     end
                 end
             end
         end) l
  | JObj props =>
      match lookup (lit "toString") props with
      | Some _ => Throw TypeError_primitive
      | None => Normal (lit "[object Object]")
      end
  end.

(** ToNumber, through ToPrimitive for arrays and objects. *)
Definition ToNumber (v : jsval) : completion number :=
  match v with
  | JUndefined => Normal NaN
  | JNull => Normal pos_zero
  | JBool b => Normal (if b then number_of_N 1 else pos_zero)
  | JNum x => Normal x
  | JStr s => Normal (StringToNumber s)
  | JArr _ | JObj _ =>
      match ToString v with
      | Throw e => Throw e
      | Normal s => Normal (StringToNumber s)
      end
  end.

(** [v > 0] *)
Definition greater_than_zero (v : jsval) : completion bool :=
  match ToNumber v with
  | Throw e => Throw e
  | Normal n => Normal (SFltb pos_zero n)
  end.

(** ** JSON.parse *)

(** CreateDataProperty on an ordinary object: an existing key keeps its
    place and takes the new value; a new array-index key goes among the
    index keys in ascending order, any other new key goes last. *)
Fixpoint replace_property (props : list (jsstring * jsval)) (k : jsstring)
  (v : jsval) : list (jsstring * jsval) :=
  match props with
  | [] => []
  | (k', v') :: rest =>
      if jsstring_eqb k k' then (k', v) :: rest
      else (k', v') :: replace_property rest k v
  end.

Fixpoint insert_index (props : list (jsstring * jsval)) (i : N)
  (k : jsstring) (v : jsval) : list (jsstring * jsval) :=
  match props with
  | [] => [(k, v)]
  | (k', v') :: rest =>
      match array_index k' with
      | Some j =>
          if (j <? i)%N then (k', v') :: insert_index rest i k v
          else (k, v) :: props
      | None => (k, v) :: props
      end
  end.

Definition define_property (props : list (jsstring * jsval)) (k : jsstring)
  (v : jsval) : list (jsstring * jsval) :=
  match lookup k props with
  | Some _ => replace_property props k v
  | None =>
      match array_index k with
      | Some i => insert_index props i k v
      | None => props ++ [(k, v)]
      end
  end.

Definition is_json_ws (c : code_unit) : bool :=
  ((c =? 9) || (c =? 10) || (c =? 13) || (c =? 32))%N.

Fixpoint skip_ws (s : jsstring) : jsstring :=
  match s with
  | c :: s' => if is_json_ws c then skip_ws s' else s
  | [] => []
  end.

(** The character a two-character escape stands for. *)
Definition simple_escape (e : code_unit) : option code_unit :=
  if ((e =? 34) || (e =? 47) || (e =? 92))%N then Some e
  else if (e =? 98)%N then Some 8%N
  else if (e =? 102)%N then Some 12%N
  else if (e =? 110)%N then Some 10%N
  else if (e =? 114)%N then Some 13%N
  else if (e =? 116)%N then Some 9%N
  else None.

(** The characters of a JSON string after its opening quote: the string
    value and the text after the closing quote. *)
Fixpoint parse_chars (s : jsstring) : option (jsstring * jsstring) :=
  let cons_to c r :=
    match r with
    | Some (str, rest) => Some (c :: str, rest)
    | None => None
    end in
  match s with
  | [] => None
  | c :: rest =>
      if (c =? 34)%N then Some ([], rest)
      else if (c =? 92)%N then
        match rest with
        | [] => None
        | e :: rest1 =>
            if (e =? 117)%N then
              match rest1 with
              | h1 :: h2 :: h3 :: h4 :: rest2 =>
                  match radix_value 16 [h1; h2; h3; h4] 0 with
                  | Some u => cons_to (Z.to_N u) (parse_chars rest2)
                  | None => None
                  end
              | _ => None
              end
            else
              match simple_escape e with
              | Some x => cons_to x (parse_chars rest1)
              | None => None
              end
        end
      else if (c <? 32)%N then None
      else cons_to c (parse_chars rest)
  end.

(** A JSON number at the head of [s]. *)
Definition parse_number (s : jsstring) : option (number * jsstring) :=
  let '(neg, s1) :=
    match eat 45%N s with
    | Some r => (true, r)
    | None => (false, s)
    end in
  let '(ip, s2) :=
    match eat 48%N s1 with
    | Some r => ([48%N], r)
    | None => take_digits s1
    end in
  match ip with
  | [] => None
  | _ :: _ =>
      let frac :=
        match eat 46%N s2 with
        | Some r =>
            match take_digits r with
            | ([], _) => None
            | (f, r') => Some (f, r')
            end
        | None => Some ([], s2)
        end in
      match frac with
      | None => None
      | Some (fp, s3) =>
          match exponent_part s3 with
          | Some (e, s4) =>
              Some (number_of_decimal neg (digits_value (ip ++ fp))
                      (e - Z.of_nat (List.length fp)), s4)
          | None => None
          end
      end
  end.

(** One of the words [true], [false] and [null] at the head of [s]. *)
Definition parse_word (s : jsstring) : option (jsval * jsstring) :=
  if starts_with (lit "true") s then Some (JBool true, skipn 4 s)
  else if starts_with (lit "false") s then Some (JBool false, skipn 5 s)
  else if starts_with (lit "null") s then Some (JNull, skipn 4 s)
  else None.

(** A JSON value at the head of [s], with the text that follows it;
    [parse_elements] reads the elements of an array after its opening
    bracket, [parse_members] the members of an object after its opening
    brace. *)
Fixpoint parse_value (fuel : nat) (s : jsstring) : option (jsval * jsstring) :=
  match fuel with
  | O => None
  | S fuel' =>
      let t := skip_ws s in
      match eat 123%N t with
      | Some r =>
          match eat 125%N (skip_ws r) with
          | Some r' => Some (JObj [], r')
          | None => parse_members fuel' r []
          end
      | None =>
      match eat 91%N t with
      | Some r =>
          match eat 93%N (skip_ws r) with
          | Some r' => Some (JArr [], r')
          | None => parse_elements fuel' r []
          end
      | None =>
      match eat 34%N t with
      | Some r =>
          match parse_chars r with
          | Some (str, r') => Some (JStr str, r')
          | None => None
          end
      | None =>
      match parse_word t with
      | Some res => Some res
      | None =>
          match parse_number t with
          | Some (x, r) => Some (JNum x, r)
          | None => None
          end
      end end end end
  end
with parse_elements (fuel : nat) (s : jsstring) (acc : list jsval)
  : option (jsval * jsstring) :=
  match fuel with
  | O => None
  | S fuel' =>
      match parse_value fuel' s with
      | Some (v, r) =>
          let t := skip_ws r in
          match eat 44%N t with
          | Some r' => parse_elements fuel' r' (v :: acc)
          | None =>
              match eat 93%N t with
              | Some r' => Some (JArr (rev (v :: acc)), r')
              | None => None
              end
          end
      | None => None
      end
  end
with parse_members (fuel : nat) (s : jsstring)
  (acc : list (jsstring * jsval)) : option (jsval * jsstring) :=
  match fuel with
  | O => None
  | S fuel' =>
      match eat 34%N (skip_ws s) with
      | Some r =>
          match parse_chars r with
          | Some (k, r1) =>
              match eat 58%N (skip_ws r1) with
              | Some r2 =>
                  match parse_value fuel' r2 with
                  | Some (v, r3) =>
                      let t := skip_ws r3 in
                      match eat 44%N t with
                      | Some r4 =>
                          parse_members fuel' r4 (define_property acc k v)
                      | None =>
                          match eat 125%N t with
                          | Some r4 =>
                              Some (JObj (define_property acc k v), r4)
                          | None => None
                          end
                      end
                  | None => None
                  end
              | None => None
              end
          | None => None
          end
      | None => None
      end
  end.

(** [JSON.parse(text)]: the value, or [None] where JavaScript throws a
    SyntaxError.  The parser reads at least one character for every two
    units of fuel it spends, so twice the length of the text is fuel
    enough (lemma [JSON_parse_enough_fuel]). *)
Definition JSON_parse (text : jsstring) : option jsval :=
  match parse_value (2 * List.length text + 2) text with
  | Some (v, rest) =>
      match skip_ws rest with
      | [] => Some v
      | _ :: _ => None
      end
  | None => None
  end.

(** ** JSON.stringify *)

Definition hex_digit (d : Z) : code_unit :=
  Z.to_N (if d <? 10 then 48 + d else 87 + d).

Definition unicode_escape (c : code_unit) : jsstring :=
  let z := Z.of_N c in
  lit "\u" ++ [hex_digit (z / 4096 mod 16); hex_digit (z / 256 mod 16);
               hex_digit (z / 16 mod 16); hex_digit (z mod 16)].

Definition is_high_surrogate (c : code_unit) : bool :=
  (55296 <=? c)%N && (c <=? 56319)%N.
Definition is_low_surrogate (c : code_unit) : bool :=
  (56320 <=? c)%N && (c <=? 57343)%N.

(** The body of QuoteJSONString: short escapes, [\uXXXX] for the other
    control characters and for unpaired surrogates. *)
Fixpoint quote_chars (s : jsstring) : jsstring :=
  match s with
  | [] => []
  | c :: rest =>
      match c with
      | 8%N => lit "\b" ++ quote_chars rest
      | 9%N => lit "\t" ++ quote_chars rest
      | 10%N => lit "\n" ++ quote_chars rest
      | 12%N => lit "\f" ++ quote_chars rest
      | 13%N => lit "\r" ++ quote_chars rest
      | 34%N => [92%N; 34%N] ++ quote_chars rest
      | 92%N => [92%N; 92%N] ++ quote_chars rest
      | _ =>
          if (c <? 32)%N || is_low_surrogate c
          then unicode_escape c ++ quote_chars rest
          else if is_high_surrogate c then
            match rest with
            | d :: rest' =>
                if is_low_surrogate d then c :: d :: quote_chars rest'
                else unicode_escape c ++ quote_chars rest
            | [] => unicode_escape c
            end
          else c :: quote_chars rest
      end
  end.

Definition QuoteJSONString (s : jsstring) : jsstring :=
  [34%N] ++ quote_chars s ++ [34%N].

Fixpoint join_with (sep : jsstring) (l : list jsstring) : jsstring :=
  match l with
  | [] => []
  | [a] => a
  | a :: l' => a ++ sep ++ join_with sep l'
  end.

(** SerializeJSONProperty without replacer or indentation: [None] is
    [undefined], which an object omits and an array writes as [null]. *)
Fixpoint SerializeJSONProperty (v : jsval) : option jsstring :=
  match v with
  | JUndefined => None
  | JNull => Some (lit "null")
  | JBool b => Some (if b then lit "true" else lit "false")
  | JNum x =>
      match x with
      | S754_finite _ _ _ | S754_zero _ => Some (number_to_string x)
      | _ => Some (lit "null")
      end
  | JStr s => Some (QuoteJSONString s)
  | JArr l =>
      let items :=
        (fix items (l : list jsval) : list jsstring :=
           match l with
           | [] => []
           | x :: l' =>
               match SerializeJSONProperty x with
               | Some t => t
               | None => lit "null"
               end :: items l'
           end) l in
      Some (lit "[" ++ join_with (lit ",") items ++ lit "]")
  | JObj props =>
      let members :=
        (fix members (props : list (jsstring * jsval)) : list jsstring :=
           match props with
           | [] => []
           | (k, x) :: props' =>
               match SerializeJSONProperty x with
               | Some t => (QuoteJSONString k ++ lit ":" ++ t) :: members props'
               | None => members props'
               end
           end) props in
      Some (lit "{" ++ join_with (lit ",") members ++ lit "}")
  end.

(** [JSON.stringify({ ... })] for an object literal with the given
    properties.  An object always serializes to a string, so the second
    branch is never taken. *)
Definition JSON_stringify_object (props : list (jsstring * jsval)) : jsstring :=
  match SerializeJSONProperty (JObj props) with
  | Some t => t
  | None => []
  end.

(** ** The host: event, environment, upstream API, console *)

(** The event Netlify passes to the function. *)
Record Event : Type := {
  event_httpMethod : jsstring;
  event_body : jsstring
}.

(** The object the function returns; [headers] is empty where the source
    gives none. *)
Record Response : Type := {
  statusCode : N;
  headers : list (jsstring * jsstring);
  body : jsstring
}.

(** The arguments of a [fetch] call. *)
Record Request : Type := {
  req_url : jsstring;
  req_method : jsstring;
  req_headers : list (jsstring * jsstring);
  req_body : jsstring
}.

(** What [fetch] resolves to: a status and the outcome of reading the
    body as text, which can itself fail when the connection breaks. *)
Record Upstream : Type := {
  status : N;
  text : completion jsstring
}.

Inductive FetchOutcome : Type :=
| Rejected (e : JsError)
| Responded (r : Upstream).

(** Everything outside the function that one invocation depends on. *)
Record World : Type := {
  env_GEMINI_API_KEY : option jsstring;
      (* process.env.GEMINI_API_KEY: unset, or a string *)
  upstream : Request -> FetchOutcome;
      (* how the network and the upstream API answer a request *)
  engine_message : JsError -> jsstring
      (* the wording the engine gives to the errors it creates *)
}.

(** [error.message] *)
Definition error_message (w : World) (e : JsError) : jsstring :=
  match e with
  | HostError m => m
  | _ => engine_message w e
  end.

Inductive LogArg : Type :=
| LogString (s : jsstring)
| LogError (e : JsError).

(** What an invocation does to the outside, in order. *)
Inductive Effect : Type :=
| ReadEnv (name : jsstring)
| ConsoleError (args : list LogArg)
| FetchCall (req : Request)
| ReadText
| ReadJson.

(** A computation: how it completes and the effects it performed. *)
Definition Run (A : Type) : Type := completion A * list Effect.

Definition ret {A : Type} (a : A) : Run A := (Normal a, []).

Definition bind {A B : Type} (m : Run A) (f : A -> Run B) : Run B :=
  match m with
  | (Normal a, t) => let '(r, t') := f a in (r, t ++ t')
  | (Throw e, t) => (Throw e, t)
  end.

Definition lift {A : Type} (c : completion A) : Run A := (c, []).

(** [try { m } catch (error) { h error }] *)
Definition try_catch {A : Type} (m : Run A) (h : JsError -> Run A) : Run A :=
  match m with
  | (Normal a, t) => (Normal a, t)
  | (Throw e, t) => let '(r, t') := h e in (r, t ++ t')
  end.

Notation "x <- m ;; k" := (bind m (fun x => k))
  (at level 61, m at next level, right associativity).
Notation "m ;;; k" := (bind m (fun _ => k))
  (at level 61, right associativity).

Definition process_env (w : World) : Run jsval :=
  (Normal match env_GEMINI_API_KEY w with
          | Some s => JStr s
          | None => JUndefined
          end,
   [ReadEnv (lit "GEMINI_API_KEY")]).

Definition console_error (args : list LogArg) : Run unit :=
  (Normal tt, [ConsoleError args]).

Definition fetch (w : World) (req : Request) : Run Upstream :=
  (match upstream w req with
   | Rejected e => Throw e
   | Responded r => Normal r
   end,
   [FetchCall req]).

(** [response.ok] *)
Definition ok (r : Upstream) : bool :=
  ((200 <=? status r) && (status r <=? 299))%N.

(** [response.text()] *)
Definition response_text (r : Upstream) : Run jsstring :=
  (text r, [ReadText]).

(** [response.json()] *)
Definition response_json (r : Upstream) : Run jsval :=
  (match text r with
   | Throw e => Throw e
   | Normal t =>
       match JSON_parse t with
       | Some v => Normal v
       | None => Throw (SyntaxError_json t)
       end
   end,
   [ReadJson]).

(** [const { a, b } = v] *)
Definition destructure2 (v : jsval) (a b : jsstring) : Run (jsval * jsval) :=
  match v with
  | JUndefined | JNull => lift (Throw (TypeError_destructure v))
  | _ =>
      x <- lift (Get v a) ;;
      y <- lift (Get v b) ;;
      ret (x, y)
  end.

(** A response without headers. *)
Definition plain (code : N) (message : jsstring) : Response :=
  {| statusCode := code; headers := []; body := message |}.

Definition api_url_prefix : jsstring :=
  lit "https://generativelanguage.googleapis.com/v1beta/models/gemini-2.5-flash-preview-09-2025:generateContent?key=".

(** The object literal [payload] of the source. *)
Definition payload_of (prompt systemPrompt : jsval)
  : list (jsstring * jsval) :=
  [ (lit "contents",
      JArr [JObj [(lit "parts", JArr [JObj [(lit "text", prompt)]])]]);
    (lit "systemInstruction",
      JObj [(lit "parts",
              JArr [JObj [(lit "text", js_or systemPrompt (JStr []))]])]) ].

(** ** The handler

    The source is one function; its [try] block is kept apart here, with
    the part that follows [await response.json()], so that each piece can
    be named in the statements. *)

(** The argument of the [fetch] call. *)
Definition gemini_request (apiUrl : jsstring)
  (payload : list (jsstring * jsval)) : Request :=
  {| req_url := apiUrl;
     req_method := lit "POST";
     req_headers := [(lit "Content-Type", lit "application/json")];
     req_body := JSON_stringify_object payload |}.

(** From [if (result.candidates && result.candidates.length > 0)] to the
    end of the [try] block. *)
Definition answer_from (result : jsval) : Run Response :=
  candidates <- lift (Get result (lit "candidates")) ;;
  nonempty <-
    (if truthy candidates then
       len <- lift (Get candidates (lit "length")) ;;
       lift (greater_than_zero len)
     else ret false) ;;
  if nonempty then
    first <- lift (Get candidates (lit "0")) ;;
    content <- lift (Get first (lit "content")) ;;
    parts <- lift (Get content (lit "parts")) ;;
    part <- lift (Get parts (lit "0")) ;;
    text <- lift (Get part (lit "text")) ;;
    ret {| statusCode := 200;
           headers := [(lit "Content-Type", lit "application/json")];
           body := JSON_stringify_object [(lit "text", text)] |}
  else
    ret (plain 500 (lit "Gemini API returned no candidates.")).

(** The [try { ... } catch (error) { ... }] statement. *)
Definition call_gemini (w : World) (apiUrl : jsstring)
  (payload : list (jsstring * jsval)) : Run Response :=
  try_catch
    (response <- fetch w (gemini_request apiUrl payload) ;;
     if negb (ok response) then
       errorText <- response_text response ;;
       console_error
         [LogString (lit "Gemini API error: " ++
                     number_to_string (number_of_N (status response)));
          LogString errorText] ;;;
       ret (plain (status response) (lit "Gemini API Error: " ++ errorText))
     else
       result <- response_json response ;;
       answer_from result)
    (fun error =>
       console_error
         [LogString (lit "Error calling Gemini API:"); LogError error] ;;;
       ret (plain 500 (lit "Internal Server Error: " ++ error_message w error))).

Definition handler (w : World) (event : Event) : Run Response :=
  if negb (jsstring_eqb (event_httpMethod event) (lit "POST")) then
    ret (plain 405 (lit "Method Not Allowed"))
  else
  match JSON_parse (event_body event) with
  | None => ret (plain 400 (lit "Bad Request: Invalid JSON."))
  | Some parsed =>
  ps <- destructure2 parsed (lit "prompt") (lit "systemPrompt") ;;
  let '(prompt, systemPrompt) := ps in
  if negb (truthy prompt) then
    ret (plain 400 (jsonlit "Bad Request: 'prompt' is required."))
  else
  apiKey <- process_env w ;;
  if negb (truthy apiKey) then
    console_error
      [LogString (lit "GEMINI_API_KEY is not set in Netlify environment.")] ;;;
    ret (plain 500 (lit "Internal Server Error: API configuration missing."))
  else
  key <- lift (ToString apiKey) ;;
  let apiUrl := api_url_prefix ++ key in
  let payload := payload_of prompt systemPrompt in
  call_gemini w apiUrl payload
  end.

(** ** Vocabulary of the statements *)

(** A Number above zero, in the sense of [x > 0]. *)
Definition positive_number (x : number) : Prop := SFltb pos_zero x = true.

(** The value of [v.k], with [undefined] where the read throws. *)
Definition prop (v : jsval) (k : jsstring) : jsval :=
  match Get v k with
  | Normal x => x
  | Throw _ => JUndefined
  end.

(** The request the handler sends for a credential and the two fields of
    the inbound body. *)
Definition sent_request (key : jsstring) (prompt systemPrompt : jsval)
  : Request :=
  gemini_request (api_url_prefix ++ key) (payload_of prompt systemPrompt).

Definition env_read : Effect := ReadEnv (lit "GEMINI_API_KEY").

(** No outbound call among the effects. *)
Definition no_fetch (t : list Effect) : bool :=
  forallb (fun e => match e with FetchCall _ => false | _ => true end) t.

(** [undefined] or [null]: the values a property read throws on. *)
Definition nullish (v : jsval) : Prop := v = JUndefined \/ v = JNull.

(** [c.content.parts[0].text], the read of line 74 of the source. *)
Definition first_part_text (c : jsval) : completion jsval :=
  match Get c (lit "content") with
  | Throw e => Throw e
  | Normal content =>
      match Get content (lit "parts") with
      | Throw e => Throw e
      | Normal parts =>
          match Get parts (lit "0") with
          | Throw e => Throw e
          | Normal part => Get part (lit "text")
          end
      end
  end.

(** A first candidate without the expected shape: it is itself null, or
    it has no content, or the content has no parts, or the parts have no
    first element (an empty list, for one). *)
Inductive misshapen (c : jsval) : Prop :=
| no_candidate :
    nullish c -> misshapen c
| missing_content (content : jsval) :
    Get c (lit "content") = Normal content ->
    nullish content -> misshapen c
| missing_parts (content parts : jsval) :
    Get c (lit "content") = Normal content ->
    Get content (lit "parts") = Normal parts ->
    nullish parts -> misshapen c
| missing_part (content parts part : jsval) :
    Get c (lit "content") = Normal content ->
    Get content (lit "parts") = Normal parts ->
    Get parts (lit "0") = Normal part ->
    nullish part -> misshapen c.

(** The payload as the specification words it: the system instruction
    holds [systemPrompt] when the body provides one, the empty string
    otherwise.  Compare [payload_of], which is the source's. *)
Definition claimed_payload (prompt : jsval) (systemPrompt : option jsval)
  : list (jsstring * jsval) :=
  [ (lit "contents",
      JArr [JObj [(lit "parts", JArr [JObj [(lit "text", prompt)]])]]);
    (lit "systemInstruction",
      JObj [(lit "parts",
              JArr [JObj [(lit "text",
                           match systemPrompt with
                           | Some v => v
                           | None => JStr []
                           end)]])]) ].

(** *** Sample hosts and events *)

(** Wording of engine errors in the samples, after V8's for property
    reads. *)
Definition sample_message (e : JsError) : jsstring :=
  match e with
  | TypeError_read base key =>
      lit "Cannot read properties of "
      ++ (match base with JNull => lit "null" | _ => lit "undefined" end)
      ++ lit " (reading '" ++ key ++ lit "')"
  | TypeError_destructure _ => lit "Cannot destructure the value"
  | TypeError_primitive => lit "Cannot convert object to primitive value"
  | SyntaxError_json _ => lit "Unexpected token in JSON"
  | HostError m => m
  end.

(** A host with the given credential whose upstream always gives the
    same answer. *)
Definition stub_world (key : option jsstring) (answer : FetchOutcome) : World :=
  {| env_GEMINI_API_KEY := key;
     upstream := fun _ => answer;
     engine_message := sample_message |}.

Definition responds (code : N) (answer : jsstring) : FetchOutcome :=
  Responded {| status := code; text := Normal answer |}.

Definition request (method body : jsstring) : Event :=
  {| event_httpMethod := method; event_body := body |}.

Definition post (body : jsstring) : Event := request (lit "POST") body.

Definition hello : Event := post (jsonlit "{'prompt':'hello'}").

Definition secret : jsstring := lit "s3cr3t".

(** The body of [hello] as [JSON.parse] builds it. *)
Definition hello_parsed : jsval := JObj [(lit "prompt", JStr (lit "hello"))].

(** An upstream answer with one candidate whose text is [world], as text
    and as [JSON.parse] builds it. *)
Definition world_answer : jsstring :=
  jsonlit "{'candidates':[{'content':{'parts':[{'text':'world'}]}}]}".

Definition world_part : jsval := JObj [(lit "text", JStr (lit "world"))].
Definition world_content : jsval := JObj [(lit "parts", JArr [world_part])].
Definition world_candidate : jsval := JObj [(lit "content", world_content)].
Definition world_result : jsval :=
  JObj [(lit "candidates", JArr [world_candidate])].

(** A request that gives [systemPrompt] the value [0]. *)
Definition hello_zero : Event :=
  post (jsonlit "{'prompt':'hello','systemPrompt':0}").

Definition hello_zero_parsed : jsval :=
  JObj [(lit "prompt", JStr (lit "hello"));
        (lit "systemPrompt", JNum pos_zero)].

(** *** Effects and answers as a whole *)

(** The effects other than the outbound call. *)
Definition without_fetch (t : list Effect) : list Effect :=
  filter (fun e => match e with FetchCall _ => false | _ => true end) t.

(** The number of outbound calls among the effects. *)
Definition fetch_count (t : list Effect) : nat :=
  List.length
    (filter (fun e => match e with FetchCall _ => true | _ => false end) t).

(** The header the handler puts on its successful answer. *)
Definition json_content_type : list (jsstring * jsstring) :=
  [(lit "Content-Type", lit "application/json")].

(** An upstream whose answer depends on the request it is sent. *)
Definition world_of (key : option jsstring)
  (answer : Request -> FetchOutcome) : World :=
  {| env_GEMINI_API_KEY := key;
     upstream := answer;
     engine_message := sample_message |}.

(** An upstream that echoes the URL it was called with, credential
    included, in the body of a 403 answer. *)
Definition echo_url (req : Request) : FetchOutcome :=
  responds 403 (req_url req).

(** A connection that breaks while the body is read. *)
Definition broken_body (code : N) : FetchOutcome :=
  Responded {| status := code;
               text := Throw (HostError (lit "terminated")) |}.

(** The three answers built after the outbound call that do not depend
    on an upstream status. *)
Definition internal_error (w : World) (e : JsError) : Response :=
  plain 500 (lit "Internal Server Error: " ++ error_message w e).

Definition no_candidates : Response :=
  plain 500 (lit "Gemini API returned no candidates.").

Definition success (txt : jsval) : Response :=
  {| statusCode := 200;
     headers := json_content_type;
     body := JSON_stringify_object [(lit "text", txt)] |}.

(** The log line of the [catch] block. *)
Definition caught (e : JsError) : Effect :=
  ConsoleError [LogString (lit "Error calling Gemini API:"); LogError e].

(** The ways the [try] statement can end once [fetch] was called with
    [req]: the answer and the effects after the call. *)
Inductive Settled (w : World) (req : Request)
  : Response -> list Effect -> Prop :=
| settled_rejected (e : JsError) :
    upstream w req = Rejected e ->
    Settled w req (internal_error w e) [caught e]
| settled_unreadable (r : Upstream) (e : JsError) :
    upstream w req = Responded r ->
    text r = Throw e ->
    Settled w req (internal_error w e)
      [if ok r then ReadJson else ReadText; caught e]
| settled_upstream_error (r : Upstream) (errorText : jsstring) :
    upstream w req = Responded r ->
    ok r = false ->
    text r = Normal errorText ->
    Settled w req
      (plain (status r) (lit "Gemini API Error: " ++ errorText))
      [ReadText;
       ConsoleError
         [LogString (lit "Gemini API error: " ++
                     number_to_string (number_of_N (status r)));
          LogString errorText]]
| settled_not_json (r : Upstream) (answer : jsstring) :
    upstream w req = Responded r ->
    ok r = true ->
    text r = Normal answer ->
    JSON_parse answer = None ->
    Settled w req (internal_error w (SyntaxError_json answer))
      [ReadJson; caught (SyntaxError_json answer)]
| settled_no_candidates (r : Upstream) (answer : jsstring) (result : jsval) :
    upstream w req = Responded r ->
    ok r = true ->
    text r = Normal answer ->
    JSON_parse answer = Some result ->
    fst (answer_from result) = Normal no_candidates ->
    Settled w req no_candidates [ReadJson]
| settled_success (r : Upstream) (answer : jsstring) (result txt : jsval) :
    upstream w req = Responded r ->
    ok r = true ->
    text r = Normal answer ->
    JSON_parse answer = Some result ->
    fst (answer_from result) = Normal (success txt) ->
    Settled w req (success txt) [ReadJson]
| settled_internal (r : Upstream) (answer : jsstring) (result : jsval)
    (e : JsError) :
    upstream w req = Responded r ->
    ok r = true ->
    text r = Normal answer ->
    JSON_parse answer = Some result ->
    fst (answer_from result) = Throw e ->
    Settled w req (internal_error w e) [ReadJson; caught e].

(** The ways an invocation can end: how it completes and its effects. *)
Inductive Invocation (w : World) (event : Event)
  : completion Response -> list Effect -> Prop :=
| invocation_method :
    event_httpMethod event <> lit "POST" ->
    Invocation w event (Normal (plain 405 (lit "Method Not Allowed"))) []
| invocation_invalid_json :
    event_httpMethod event = lit "POST" ->
    JSON_parse (event_body event) = None ->
    Invocation w event
      (Normal (plain 400 (lit "Bad Request: Invalid JSON."))) []
| invocation_null :
    event_httpMethod event = lit "POST" ->
    JSON_parse (event_body event) = Some JNull ->
    Invocation w event (Throw (TypeError_destructure JNull)) []
| invocation_prompt (parsed : jsval) :
    event_httpMethod event = lit "POST" ->
    JSON_parse (event_body event) = Some parsed ->
    parsed <> JNull ->
    truthy (prop parsed (lit "prompt")) = false ->
    Invocation w event
      (Normal (plain 400 (jsonlit "Bad Request: 'prompt' is required."))) []
| invocation_configuration (parsed : jsval) :
    event_httpMethod event = lit "POST" ->
    JSON_parse (event_body event) = Some parsed ->
    parsed <> JNull ->
    truthy (prop parsed (lit "prompt")) = true ->
    env_GEMINI_API_KEY w = None \/ env_GEMINI_API_KEY w = Some [] ->
    Invocation w event
      (Normal
         (plain 500 (lit "Internal Server Error: API configuration missing.")))
      [env_read;
       ConsoleError
         [LogString (lit "GEMINI_API_KEY is not set in Netlify environment.")]]
| invocation_upstream (parsed : jsval) (key : jsstring)
    (resp : Response) (rest : list Effect) :
    event_httpMethod event = lit "POST" ->
    JSON_parse (event_body event) = Some parsed ->
    parsed <> JNull ->
    truthy (prop parsed (lit "prompt")) = true ->
    env_GEMINI_API_KEY w = Some key ->
    key <> [] ->
    Settled w
      (sent_request key (prop parsed (lit "prompt"))
         (prop parsed (lit "systemPrompt")))
      resp rest ->
    Invocation w event (Normal resp)
      (env_read
       :: FetchCall
            (sent_request key (prop parsed (lit "prompt"))
               (prop parsed (lit "systemPrompt")))
       :: rest).

(** The parser, given fuel enough, reads the value [v] at the head of [s]
    and leaves [rest]. *)
Definition reads (s : jsstring) (v : jsval) (rest : jsstring) : Prop :=
  exists fuel : nat, parse_value fuel s = Some (v, rest).

(** The answer and effects of [hello] against an upstream that answers
    with [world_answer]. *)
Definition world_response : Response :=
  {| statusCode := 200;
     headers := json_content_type;
     body := jsonlit "{'text':'world'}" |}.

Definition world_effects : list Effect :=
  [env_read;
   FetchCall (sent_request secret (JStr (lit "hello")) JUndefined);
   ReadJson].

(** The answer to [hello] when the upstream says [rate limited]. *)
Definition rate_limited_response : Response :=
  plain 429 (lit "Gemini API Error: rate limited").

Definition rate_limited_effects : list Effect :=
  [env_read;
   FetchCall (sent_request secret (JStr (lit "hello")) JUndefined);
   ReadText;
   ConsoleError [LogString (lit "Gemini API error: 429");
                 LogString (lit "rate limited")]].

(** A body with more than the two fields the handler reads. *)
Definition hello_more : Event :=
  post (jsonlit "{'model':'other','prompt':'hello','temperature':2}").

(** * Properties *)

(** ** Strings *)

Lemma jsstring_eqb_refl (a : jsstring) : jsstring_eqb a a = true.
Proof.
  induction a as [|x a IH]; simpl; [reflexivity|].
  now rewrite N.eqb_refl, IH.
Qed.

Lemma jsstring_eqb_eq (a b : jsstring) : jsstring_eqb a b = true <-> a = b.
Proof.
  split; [|intros ->; apply jsstring_eqb_refl].
  revert b; induction a as [|x a IH]; intros [|y b]; simpl; try easy.
  intros H. apply andb_true_iff in H as [Hx Hr].
  apply N.eqb_eq in Hx. apply IH in Hr. now subst.
Qed.

Lemma starts_with_refl (p : jsstring) : starts_with p p = true.
Proof.
  induction p as [|x p IH]; simpl; [reflexivity|].
  now rewrite N.eqb_refl, IH.
Qed.

(** A text includes whatever it ends with. *)
Lemma includes_suffix (a b : jsstring) : includes (a ++ b) b = true.
Proof.
  induction a as [|x a IH]; simpl.
  - destruct b; simpl; [reflexivity|].
    now rewrite N.eqb_refl, starts_with_refl.
  - rewrite IH. apply orb_true_r.
Qed.

(** ** Numbers: a positive integer converts to a positive Number *)

Lemma shr_m_of_loc (m : Z) (l : location) :
  shr_m (shr_record_of_loc m l) = m.
Proof. destruct l as [|[ | | ]]; reflexivity. Qed.

Lemma shr_1_positive (q : positive) (r s : bool) :
  1 < Zpos (digits2_pos q) ->
  exists q', shr_m (shr_1 (Build_shr_record (Zpos q) r s)) = Zpos q'
             /\ Zpos (digits2_pos q') = Zpos (digits2_pos q) - 1.
Proof.
  destruct q as [q|q|]; cbn [digits2_pos]; intros H;
    [exists q|exists q|lia];
    (split; [reflexivity|rewrite Pos2Z.inj_succ; lia]).
Qed.

Lemma iter_shr_positive (n : positive) :
  forall (mrs : shr_record) (q : positive),
    shr_m mrs = Zpos q ->
    Zpos n < Zpos (digits2_pos q) ->
    exists q', shr_m (iter_pos shr_1 n mrs) = Zpos q'
               /\ Zpos (digits2_pos q') = Zpos (digits2_pos q) - Zpos n.
Proof.
  induction n as [n IH|n IH|]; intros [m r s] q Hm Hn; simpl in Hm; subst m;
    [rewrite Pos2Z.inj_xI in *|rewrite Pos2Z.inj_xO in *|].
  - simpl iter_pos.
    destruct (shr_1_positive q r s) as (q1 & E1 & D1); [lia|].
    destruct (IH _ q1 E1) as (q2 & E2 & D2); [lia|].
    destruct (IH _ q2 E2) as (q3 & E3 & D3); [lia|].
    exists q3; split; [exact E3|lia].
  - simpl iter_pos.
    destruct (IH (Build_shr_record (Zpos q) r s) q eq_refl) as (q1 & E1 & D1);
      [lia|].
    destruct (IH _ q1 E1) as (q2 & E2 & D2); [lia|].
    exists q2; split; [exact E2|lia].
  - simpl iter_pos.
    destruct (shr_1_positive q r s) as (q1 & E1 & D1); [lia|].
    exists q1; split; [exact E1|lia].
Qed.


Lemma shr_fexp_positive (q : positive) (e : Z) (l : location) :
  emin prec emax <= e ->
  exists q', shr_m (fst (shr_fexp prec emax (Zpos q) e l)) = Zpos q'
             /\ emin prec emax <= snd (shr_fexp prec emax (Zpos q) e l).
Proof.
  intros He. unfold shr_fexp, shr, Zdigits2.
  destruct (fexp prec emax (Zpos (digits2_pos q) + e) - e) as [|n|n] eqn:En;
    simpl fst; simpl snd.
  - exists q; split; [apply shr_m_of_loc|exact He].
  - unfold fexp, emin, prec, emax in *.
    destruct (iter_shr_positive n (shr_record_of_loc (Zpos q) l) q)
      as (q' & E & _); [apply shr_m_of_loc|lia|].
    exists q'; split; [exact E|lia].
  - exists q; split; [apply shr_m_of_loc|exact He].
Qed.

Lemma round_nearest_even_positive (q : positive) (l : location) :
  exists q', round_nearest_even (Zpos q) l = Zpos q'.
Proof.
  destruct l as [|[ | | ]]; simpl; eauto.
  destruct q; simpl; eauto.
Qed.

Lemma binary_round_aux_positive (q : positive) (e : Z) (l : location) :
  emin prec emax <= e ->
  positive_number (binary_round_aux prec emax false (Zpos q) e l).
Proof.
  intros He. unfold binary_round_aux.
  destruct (shr_fexp_positive q e l He) as (q1 & E1 & He1).
  destruct (shr_fexp prec emax (Zpos q) e l) as [mrs1 e1]; simpl in E1, He1.
  rewrite E1.
  destruct (round_nearest_even_positive q1 (loc_of_shr_record mrs1)) as (q2 & E2).
  rewrite E2.
  destruct (shr_fexp_positive q2 e1 loc_Exact He1) as (q3 & E3 & _).
  destruct (shr_fexp prec emax (Zpos q2) e1 loc_Exact) as [mrs2 e2];
    simpl in E3.
  rewrite E3.
  destruct (e2 <=? emax - prec); reflexivity.
Qed.

Lemma binary_round_positive (m : positive) :
  positive_number (binary_round prec emax false m 0).
Proof.
  unfold binary_round, shl_align.
  destruct (fexp prec emax (Zpos (digits2_pos m) + 0) - 0) as [|d|d] eqn:Ed;
    apply binary_round_aux_positive;
    unfold fexp, emin, prec, emax in *; lia.
Qed.

Lemma number_of_N_positive (n : N) :
  (0 < n)%N -> positive_number (number_of_N n).
Proof.
  destruct n as [|p]; [lia|intros _].
  unfold number_of_N, number_of_decimal. simpl Z.of_N. cbv iota beta.
  apply binary_round_positive.
Qed.
(** ** JSON.parse has fuel enough *)

Lemma skip_ws_length (s : jsstring) :
  (List.length (skip_ws s) <= List.length s)%nat.
Proof.
  induction s as [|c s IH]; cbn [skip_ws]; [lia|].
  destruct (is_json_ws c); cbn [List.length]; lia.
Qed.

Lemma eat_length (c : code_unit) (s r : jsstring) :
  eat c s = Some r -> List.length s = S (List.length r).
Proof.
  destruct s as [|x s]; cbn [eat]; [discriminate|].
  destruct (x =? c)%N; [|discriminate].
  intros [= ->]. reflexivity.
Qed.

Lemma parse_chars_length (n : nat) :
  forall (s k r : jsstring),
    (List.length s <= n)%nat ->
    parse_chars s = Some (k, r) -> (List.length r < List.length s)%nat.
Proof.
  induction n as [|n IH]; intros s k r Hn; destruct s as [|c rest];
    cbn [parse_chars List.length] in *; try discriminate; try lia.
  destruct (c =? 34)%N; [intros [= <- <-]; lia|].
  destruct (c =? 92)%N.
  - destruct rest as [|e rest1]; [discriminate|].
    cbn [List.length] in Hn.
    destruct (e =? 117)%N.
    + destruct rest1 as [|h1 [|h2 [|h3 [|h4 rest2]]]]; try discriminate.
      destruct (radix_value 16 [h1; h2; h3; h4] 0); [|discriminate].
      destruct (parse_chars rest2) as [[str r']|] eqn:E; [|discriminate].
      intros [= <- <-]. apply IH in E; cbn [List.length] in *; lia.
    + destruct (simple_escape e); [|discriminate].
      destruct (parse_chars rest1) as [[str r']|] eqn:E; [|discriminate].
      intros [= <- <-]. apply IH in E; cbn [List.length] in *; lia.
  - destruct (c <? 32)%N; [discriminate|].
    destruct (parse_chars rest) as [[str r']|] eqn:E; [|discriminate].
    intros [= <- <-]. apply IH in E; lia.
Qed.

Lemma take_digits_length (s d r : jsstring) :
  take_digits s = (d, r) -> (List.length r <= List.length s)%nat.
Proof.
  revert d r; induction s as [|c s IH]; intros d r; cbn [take_digits].
  - intros [= <- <-]. lia.
  - destruct (is_digit c).
    + destruct (take_digits s) as [d' r'].
      intros [= <- <-]. specialize (IH d' r' eq_refl). cbn [List.length]. lia.
    + intros [= <- <-]. lia.
Qed.

Lemma exponent_part_length (s r : jsstring) (e : Z) :
  exponent_part s = Some (e, r) -> (List.length r <= List.length s)%nat.
Proof.
  unfold exponent_part. destruct s as [|c s']; [intros [= <- <-]; lia|].
  destruct ((c =? 101)%N || (c =? 69)%N); [|intros [= <- <-]; lia].
  assert (H : exists r1 : jsstring,
             (List.length r1 <= List.length s')%nat
             /\ (let '(neg, r1) :=
                   match eat 45%N s' with
                   | Some r' => (true, r')
                   | None =>
                       match eat 43%N s' with
                       | Some r' => (false, r')
                       | None => (false, s')
                       end
                   end in r1) = r1).
  { destruct (eat 45%N s') as [r'|] eqn:E1;
      [apply eat_length in E1; exists r'; split; [lia|reflexivity]|].
    destruct (eat 43%N s') as [r'|] eqn:E2;
      [apply eat_length in E2; exists r'; split; [lia|reflexivity]|].
    exists s'. split; [lia|reflexivity]. }
  destruct H as (r1 & Hr1 & E).
  destruct (match eat 45%N s' with
            | Some r' => (true, r')
            | None =>
                match eat 43%N s' with
                | Some r' => (false, r')
                | None => (false, s')
                end
            end) as [neg r1']. subst r1'.
  destruct (take_digits r1) as [[|d0 d] r2] eqn:Ed; [discriminate|].
  apply take_digits_length in Ed.
  intros [= <- <-]. cbn [List.length]. lia.
Qed.

Lemma parse_number_length (s r : jsstring) (x : number) :
  parse_number s = Some (x, r) -> (List.length r <= List.length s)%nat.
Proof.
  unfold parse_number.
  assert (H1 : forall neg s1,
             match eat 45%N s with
             | Some r => (true, r)
             | None => (false, s)
             end = (neg, s1) -> (List.length s1 <= List.length s)%nat).
  { intros neg s1. destruct (eat 45%N s) as [r'|] eqn:E; intros [= <- <-];
      [apply eat_length in E|]; lia. }
  destruct (match eat 45%N s with
            | Some r => (true, r)
            | None => (false, s)
            end) as [neg s1].
  specialize (H1 neg s1 eq_refl).
  assert (H2 : forall ip s2,
             match eat 48%N s1 with
             | Some r => ([48%N], r)
             | None => take_digits s1
             end = (ip, s2) -> (List.length s2 <= List.length s1)%nat).
  { intros ip s2. destruct (eat 48%N s1) as [r'|] eqn:E.
    - intros [= <- <-]. apply eat_length in E. lia.
    - apply take_digits_length. }
  destruct (match eat 48%N s1 with
            | Some r => ([48%N], r)
            | None => take_digits s1
            end) as [ip s2].
  specialize (H2 ip s2 eq_refl).
  destruct ip as [|i0 ip]; [discriminate|].
  destruct (eat 46%N s2) as [r'|] eqn:E46.
  - apply eat_length in E46.
    destruct (take_digits r') as [[|f0 f] r''] eqn:Ef; [discriminate|].
    apply take_digits_length in Ef.
    destruct (exponent_part r'') as [[e s4]|] eqn:Ee; [|discriminate].
    apply exponent_part_length in Ee. intros [= <- <-]. lia.
  - destruct (exponent_part s2) as [[e s4]|] eqn:Ee; [|discriminate].
    apply exponent_part_length in Ee. intros [= <- <-]. lia.
Qed.

Lemma parse_word_length (s r : jsstring) (v : jsval) :
  parse_word s = Some (v, r) -> (List.length r <= List.length s)%nat.
Proof.
  unfold parse_word. intros H.
  assert (Hr : exists n : nat, r = skipn n s).
  { destruct (starts_with (lit "true") s); [exists 4%nat; congruence|].
    destruct (starts_with (lit "false") s); [exists 5%nat; congruence|].
    destruct (starts_with (lit "null") s); [exists 4%nat; congruence|].
    discriminate. }
  destruct Hr as [n ->]. rewrite length_skipn. lia.
Qed.

Lemma parse_value_S (f : nat) (s : jsstring) :
  parse_value (S f) s =
  let t := skip_ws s in
  match eat 123%N t with
  | Some r =>
      match eat 125%N (skip_ws r) with
      | Some r' => Some (JObj [], r')
      | None => parse_members f r []
      end
  | None =>
  match eat 91%N t with
  | Some r =>
      match eat 93%N (skip_ws r) with
      | Some r' => Some (JArr [], r')
      | None => parse_elements f r []
      end
  | None =>
  match eat 34%N t with
  | Some r =>
      match parse_chars r with
      | Some (str, r') => Some (JStr str, r')
      | None => None
      end
  | None =>
  match parse_word t with
  | Some res => Some res
  | None =>
      match parse_number t with
      | Some (x, r) => Some (JNum x, r)
      | None => None
      end
  end end end end.
Proof. reflexivity. Qed.

Lemma parse_elements_S (f : nat) (s : jsstring) (acc : list jsval) :
  parse_elements (S f) s acc =
  match parse_value f s with
  | Some (v, r) =>
      let t := skip_ws r in
      match eat 44%N t with
      | Some r' => parse_elements f r' (v :: acc)
      | None =>
          match eat 93%N t with
          | Some r' => Some (JArr (rev (v :: acc)), r')
          | None => None
          end
      end
  | None => None
  end.
Proof. reflexivity. Qed.

Lemma parse_members_S (f : nat) (s : jsstring)
  (acc : list (jsstring * jsval)) :
  parse_members (S f) s acc =
  match eat 34%N (skip_ws s) with
  | Some r =>
      match parse_chars r with
      | Some (k, r1) =>
          match eat 58%N (skip_ws r1) with
          | Some r2 =>
              match parse_value f r2 with
              | Some (v, r3) =>
                  let t := skip_ws r3 in
                  match eat 44%N t with
                  | Some r4 => parse_members f r4 (define_property acc k v)
                  | None =>
                      match eat 125%N t with
                      | Some r4 => Some (JObj (define_property acc k v), r4)
                      | None => None
                      end
                  end
              | None => None
              end
          | None => None
          end
      | None => None
      end
  | None => None
  end.
Proof. reflexivity. Qed.

(** A parse that succeeds with some fuel leaves no more text than it
    was given, and succeeds with the same result on any fuel above twice
    the length of the text. *)
Lemma parse_enough_fuel (f : nat) :
  (forall s res,
      parse_value f s = Some res ->
      (List.length (snd res) <= List.length s)%nat
      /\ forall g, (2 * List.length s + 1 <= g)%nat ->
                   parse_value g s = Some res)
  /\ (forall s acc res,
         parse_elements f s acc = Some res ->
         (List.length (snd res) <= List.length s)%nat
         /\ forall g, (2 * List.length s + 2 <= g)%nat ->
                      parse_elements g s acc = Some res)
  /\ (forall s acc res,
         parse_members f s acc = Some res ->
         (List.length (snd res) <= List.length s)%nat
         /\ forall g, (2 * List.length s + 2 <= g)%nat ->
                      parse_members g s acc = Some res).
Proof.
  induction f as [|f (IHv & IHe & IHm)];
    [repeat split; discriminate|].
  split; [|split].
  - intros s res H. rewrite parse_value_S in H. cbv zeta in H.
    pose proof (skip_ws_length s) as Hs.
    destruct (eat 123%N (skip_ws s)) as [r|] eqn:E1.
    { pose proof (eat_length _ _ _ E1) as L1.
      pose proof (skip_ws_length r) as Hr.
      destruct (eat 125%N (skip_ws r)) as [r'|] eqn:E2.
      - pose proof (eat_length _ _ _ E2) as L2.
        injection H as <-. cbn [snd]. split; [lia|].
        intros [|g] Hg; [lia|]. rewrite parse_value_S. cbv zeta.
        rewrite E1, E2. reflexivity.
      - destruct (IHm _ _ _ H) as [L G]. split; [lia|].
        intros [|g] Hg; [lia|]. rewrite parse_value_S. cbv zeta.
        rewrite E1, E2. apply G. lia. }
    destruct (eat 91%N (skip_ws s)) as [r|] eqn:E3.
    { pose proof (eat_length _ _ _ E3) as L3.
      pose proof (skip_ws_length r) as Hr.
      destruct (eat 93%N (skip_ws r)) as [r'|] eqn:E4.
      - pose proof (eat_length _ _ _ E4) as L4.
        injection H as <-. cbn [snd]. split; [lia|].
        intros [|g] Hg; [lia|]. rewrite parse_value_S. cbv zeta.
        rewrite E1, E3, E4. reflexivity.
      - destruct (IHe _ _ _ H) as [L G]. split; [lia|].
        intros [|g] Hg; [lia|]. rewrite parse_value_S. cbv zeta.
        rewrite E1, E3, E4. apply G. lia. }
    destruct (eat 34%N (skip_ws s)) as [r|] eqn:E5.
    { pose proof (eat_length _ _ _ E5) as L5.
      destruct (parse_chars r) as [[str r']|] eqn:E6; [|discriminate].
      pose proof (parse_chars_length _ _ _ _ (le_n _) E6) as L6.
      injection H as <-. cbn [snd]. split; [lia|].
      intros [|g] Hg; [lia|]. rewrite parse_value_S. cbv zeta.
      rewrite E1, E3, E5, E6. reflexivity. }
    destruct (parse_word (skip_ws s)) as [[v r]|] eqn:E7.
    { pose proof (parse_word_length _ _ _ E7) as L7.
      injection H as <-. cbn [snd]. split; [lia|].
      intros [|g] Hg; [lia|]. rewrite parse_value_S. cbv zeta.
      rewrite E1, E3, E5, E7. reflexivity. }
    destruct (parse_number (skip_ws s)) as [[x r]|] eqn:E8; [|discriminate].
    pose proof (parse_number_length _ _ _ E8) as L8.
    injection H as <-. cbn [snd]. split; [lia|].
    intros [|g] Hg; [lia|]. rewrite parse_value_S. cbv zeta.
    rewrite E1, E3, E5, E7, E8. reflexivity.
  - intros s acc res H. rewrite parse_elements_S in H.
    destruct (parse_value f s) as [[v r]|] eqn:Ev; [|discriminate].
    destruct (IHv _ _ Ev) as [Lv Gv]. cbn [snd] in Lv. cbv zeta in H.
    pose proof (skip_ws_length r) as Hr.
    destruct (eat 44%N (skip_ws r)) as [r'|] eqn:E1.
    { pose proof (eat_length _ _ _ E1) as L1.
      destruct (IHe _ _ _ H) as [L G]. split; [lia|].
      intros [|g] Hg; [lia|]. rewrite parse_elements_S, (Gv g) by lia.
      cbv zeta. rewrite E1. apply G. lia. }
    destruct (eat 93%N (skip_ws r)) as [r'|] eqn:E2; [|discriminate].
    pose proof (eat_length _ _ _ E2) as L2.
    injection H as <-. cbn [snd]. split; [lia|].
    intros [|g] Hg; [lia|]. rewrite parse_elements_S, (Gv g) by lia.
    cbv zeta. rewrite E1, E2. reflexivity.
  - intros s acc res H. rewrite parse_members_S in H.
    pose proof (skip_ws_length s) as Hs.
    destruct (eat 34%N (skip_ws s)) as [r|] eqn:E1; [|discriminate].
    pose proof (eat_length _ _ _ E1) as L1.
    destruct (parse_chars r) as [[k r1]|] eqn:E2; [|discriminate].
    pose proof (parse_chars_length _ _ _ _ (le_n _) E2) as L2.
    pose proof (skip_ws_length r1) as Hr1.
    destruct (eat 58%N (skip_ws r1)) as [r2|] eqn:E3; [|discriminate].
    pose proof (eat_length _ _ _ E3) as L3.
    destruct (parse_value f r2) as [[v r3]|] eqn:Ev; [|discriminate].
    destruct (IHv _ _ Ev) as [Lv Gv]. cbn [snd] in Lv. cbv zeta in H.
    pose proof (skip_ws_length r3) as Hr3.
    destruct (eat 44%N (skip_ws r3)) as [r4|] eqn:E4.
    { pose proof (eat_length _ _ _ E4) as L4.
      destruct (IHm _ _ _ H) as [L G]. split; [lia|].
      intros [|g] Hg; [lia|].
      rewrite parse_members_S, E1, E2, E3, (Gv g) by lia.
      cbv zeta. rewrite E4. apply G. lia. }
    destruct (eat 125%N (skip_ws r3)) as [r4|] eqn:E5; [|discriminate].
    pose proof (eat_length _ _ _ E5) as L5.
    injection H as <-. cbn [snd]. split; [lia|].
    intros [|g] Hg; [lia|].
    rewrite parse_members_S, E1, E2, E3, (Gv g) by lia.
    cbv zeta. rewrite E4, E5. reflexivity.
Qed.

(** [JSON_parse] never fails for want of fuel: whenever the parser, with
    whatever fuel, reads a value followed only by white space, that value
    is the result. *)
Lemma JSON_parse_enough_fuel (fuel : nat) (s rest : jsstring) (v : jsval) :
  parse_value fuel s = Some (v, rest) ->
  skip_ws rest = [] ->
  JSON_parse s = Some v.
Proof.
  intros H Hrest. unfold JSON_parse.
  destruct (parse_enough_fuel fuel) as [Hv _].
  destruct (Hv _ _ H) as [_ G].
  rewrite (G (2 * List.length s + 2)%nat) by lia.
  rewrite Hrest. reflexivity.
Qed.

(** What the parser yields is never [undefined]. *)
Lemma parse_defined (f : nat) :
  (forall s res, parse_value f s = Some res -> fst res <> JUndefined)
  /\ (forall s acc res,
         parse_elements f s acc = Some res -> fst res <> JUndefined)
  /\ (forall s acc res,
         parse_members f s acc = Some res -> fst res <> JUndefined).
Proof.
  induction f as [|f (IHv & IHe & IHm)];
    [repeat split; discriminate|].
  split; [|split].
  - intros s res H. rewrite parse_value_S in H. cbv zeta in H.
    destruct (eat 123%N (skip_ws s)) as [r|].
    { destruct (eat 125%N (skip_ws r));
        [injection H as <-; discriminate|eapply IHm; eassumption]. }
    destruct (eat 91%N (skip_ws s)) as [r|].
    { destruct (eat 93%N (skip_ws r));
        [injection H as <-; discriminate|eapply IHe; eassumption]. }
    destruct (eat 34%N (skip_ws s)) as [r|].
    { destruct (parse_chars r) as [[str r']|]; [|discriminate].
      injection H as <-. discriminate. }
    destruct (parse_word (skip_ws s)) as [[v r]|] eqn:E.
    { injection H as <-. unfold parse_word in E.
      destruct (starts_with (lit "true") (skip_ws s));
        [injection E as <- _; discriminate|].
      destruct (starts_with (lit "false") (skip_ws s));
        [injection E as <- _; discriminate|].
      destruct (starts_with (lit "null") (skip_ws s));
        [injection E as <- _; discriminate|discriminate]. }
    destruct (parse_number (skip_ws s)) as [[x r]|]; [|discriminate].
    injection H as <-. discriminate.
  - intros s acc res H. rewrite parse_elements_S in H.
    destruct (parse_value f s) as [[v r]|]; [|discriminate]. cbv zeta in H.
    destruct (eat 44%N (skip_ws r)); [eapply IHe; eassumption|].
    destruct (eat 93%N (skip_ws r)); [|discriminate].
    injection H as <-. discriminate.
  - intros s acc res H. rewrite parse_members_S in H.
    destruct (eat 34%N (skip_ws s)) as [r|]; [|discriminate].
    destruct (parse_chars r) as [[k r1]|]; [|discriminate].
    destruct (eat 58%N (skip_ws r1)) as [r2|]; [|discriminate].
    destruct (parse_value f r2) as [[v r3]|]; [|discriminate]. cbv zeta in H.
    destruct (eat 44%N (skip_ws r3)); [eapply IHm; eassumption|].
    destruct (eat 125%N (skip_ws r3)); [|discriminate].
    injection H as <-. discriminate.
Qed.

Lemma JSON_parse_defined (s : jsstring) (v : jsval) :
  JSON_parse s = Some v -> v <> JUndefined.
Proof.
  unfold JSON_parse.
  destruct (parse_value (2 * List.length s + 2) s) as [[v' r]|] eqn:E;
    [|discriminate].
  destruct (skip_ws r); [|discriminate].
  intros [= <-].
  destruct (parse_defined (2 * List.length s + 2)) as [Hv _].
  apply (Hv _ _ E).
Qed.

(** ** Property reads and the computation monad *)

Lemma Get_total (v : jsval) (a b : jsstring) (x : jsval) :
  Get v a = Normal x -> Get v b = Normal (prop v b).
Proof.
  unfold prop. destruct (Get v b) eqn:E; [reflexivity|].
  destruct v; cbn [Get] in *; try discriminate.
  - destruct (jsstring_eqb b (lit "length")); [discriminate|].
    destruct (array_index b); [|discriminate].
    destruct (nth_error s (N.to_nat n)); discriminate.
  - destruct (jsstring_eqb b (lit "length")); [discriminate|].
    destruct (array_index b); [|discriminate].
    destruct (nth_error elems (N.to_nat n)); discriminate.
  - destruct (lookup b props); discriminate.
Qed.

Lemma destructure2_Normal (v : jsval) (a b : jsstring) (x : jsval) :
  Get v a = Normal x -> destructure2 v a b = ret (x, prop v b).
Proof.
  intros H. pose proof (Get_total v a b x H) as Hb.
  unfold destructure2.
  destruct v; try (cbn [Get] in H; discriminate);
    rewrite H, Hb; reflexivity.
Qed.

Lemma bind_ret {A B : Type} (a : A) (f : A -> Run B) : bind (ret a) f = f a.
Proof. unfold bind, ret. destruct (f a); reflexivity. Qed.

Lemma bind_lift_Normal {A B : Type} (a : A) (f : A -> Run B) :
  bind (lift (Normal a)) f = f a.
Proof. apply bind_ret. Qed.

Lemma bind_lift_Throw {A B : Type} (e : JsError) (f : A -> Run B) :
  bind (lift (Throw e)) f = lift (Throw e).
Proof. reflexivity. Qed.

Lemma Get_length (l : list jsval) :
  Get (JArr l) (lit "length")
  = Normal (JNum (number_of_N (N.of_nat (List.length l)))).
Proof. reflexivity. Qed.

Lemma Get_first (c : jsval) (cs : list jsval) :
  Get (JArr (c :: cs)) (lit "0") = Normal c.
Proof. reflexivity. Qed.

(** [candidates.length > 0] holds of every non-empty array. *)
Lemma nonempty_length (c : jsval) (cs : list jsval) :
  greater_than_zero (JNum (number_of_N (N.of_nat (List.length (c :: cs)))))
  = Normal true.
Proof.
  unfold greater_than_zero, ToNumber.
  rewrite number_of_N_positive; [reflexivity|].
  cbn [List.length]. lia.
Qed.

Lemma Get_nullish (v : jsval) (k : jsstring) :
  nullish v -> Get v k = Throw (TypeError_read v k).
Proof. intros [-> | ->]; reflexivity. Qed.

Lemma Get_throws (v : jsval) (k : jsstring) (e : JsError) :
  Get v k = Throw e -> nullish v.
Proof.
  destruct v; cbn [Get]; intros H; try discriminate;
    try (left; reflexivity); try (right; reflexivity).
  - destruct (jsstring_eqb k (lit "length")); [discriminate|].
    destruct (array_index k); [|discriminate].
    destruct (nth_error s (N.to_nat n)); discriminate.
  - destruct (jsstring_eqb k (lit "length")); [discriminate|].
    destruct (array_index k); [|discriminate].
    destruct (nth_error elems (N.to_nat n)); discriminate.
  - destruct (lookup k props); discriminate.
Qed.

(** The shapes of [misshapen] are exactly those on which the read of the
    first part's text throws. *)
Lemma misshapen_throws (c : jsval) :
  misshapen c <-> exists e : JsError, first_part_text c = Throw e.
Proof.
  unfold first_part_text. split.
  - intros [Hc|content Hcontent Hn|content parts Hcontent Hparts Hn
           |content parts part Hcontent Hparts Hpart Hn].
    + rewrite (Get_nullish _ _ Hc). eauto.
    + rewrite Hcontent, (Get_nullish _ _ Hn). eauto.
    + rewrite Hcontent, Hparts, (Get_nullish _ _ Hn). eauto.
    + rewrite Hcontent, Hparts, Hpart, (Get_nullish _ _ Hn). eauto.
  - intros [e He].
    destruct (Get c (lit "content")) as [content|e1] eqn:Hcontent;
      [|apply no_candidate; eapply Get_throws; eassumption].
    destruct (Get content (lit "parts")) as [parts|e2] eqn:Hparts;
      [|eapply missing_content; [eassumption|eapply Get_throws; eassumption]].
    destruct (Get parts (lit "0")) as [part|e3] eqn:Hpart;
      [|eapply missing_parts; [eassumption..|eapply Get_throws; eassumption]].
    eapply missing_part; [eassumption..|eapply Get_throws; eassumption].
Qed.

(** An empty list of parts is one of these shapes. *)
Lemma empty_parts_misshapen (c content : jsval) :
  Get c (lit "content") = Normal content ->
  Get content (lit "parts") = Normal (JArr []) ->
  misshapen c.
Proof.
  intros Hcontent Hparts.
  apply (missing_part c content (JArr []) JUndefined Hcontent Hparts eq_refl).
  left. reflexivity.
Qed.

(** The property reads after [response.json()] have no effect on the
    outside. *)
Lemma answer_from_pure (result : jsval) : snd (answer_from result) = [].
Proof.
  unfold answer_from.
  repeat match goal with
  | |- context [lift ?c] =>
      destruct c; [rewrite bind_lift_Normal|rewrite bind_lift_Throw; reflexivity]
  | |- context [if ?b then _ else _] => destruct b
  | |- context [bind (ret _) _] => rewrite bind_ret
  end; reflexivity.
Qed.

(** The [try] statement always completes normally, starts with the one
    [fetch] and makes no other outbound call. *)
Lemma call_gemini_one_fetch (w : World) (apiUrl : jsstring)
  (payload : list (jsstring * jsval)) :
  exists (resp : Response) (rest : list Effect),
    call_gemini w apiUrl payload
    = (Normal resp, FetchCall (gemini_request apiUrl payload) :: rest)
    /\ no_fetch rest = true.
Proof.
  unfold call_gemini, fetch.
  destruct (upstream w (gemini_request apiUrl payload)) as [e|r].
  - eexists _, _. split; reflexivity.
  - cbn [bind try_catch]. unfold response_text, response_json.
    destruct (ok r); cbn [negb].
    + destruct (text r) as [t|e]; [destruct (JSON_parse t) as [result|]|].
      * pose proof (answer_from_pure result) as Hpure.
        cbn [bind].
        destruct (answer_from result) as [[a|e] t']; cbn [snd] in Hpure;
          subst t'; eexists _, _; split; reflexivity.
      * eexists _, _. split; reflexivity.
      * eexists _, _. split; reflexivity.
    + destruct (text r) as [t|e]; eexists _, _; split; reflexivity.
Qed.

(** ** The early exits of the handler *)

(** Claim C7, as amended: a request whose method is not POST is answered
    with status 405 and the fixed body [Method Not Allowed], whatever its
    body and whatever the host, and nothing is done to the outside: no
    read of the configuration, no log line, no outbound call. *)
Theorem handler_method_not_allowed (w : World) (event : Event) :
  event_httpMethod event <> lit "POST" ->
  handler w event = (Normal (plain 405 (lit "Method Not Allowed")), []).
Proof.
  intros Hmethod. unfold handler.
  destruct (jsstring_eqb (event_httpMethod event) (lit "POST")) eqn:E.
  - apply jsstring_eqb_eq in E. contradiction.
  - reflexivity.
Qed.

(** Claim C8: a POST request whose body [JSON.parse] rejects is answered
    with status 400 and [Bad Request: Invalid JSON.]; the invocation ends
    there, with no effect on the outside, so no retry and no outbound
    call. *)
Theorem handler_invalid_json (w : World) (event : Event) :
  event_httpMethod event = lit "POST" ->
  JSON_parse (event_body event) = None ->
  handler w event = (Normal (plain 400 (lit "Bad Request: Invalid JSON.")), []).
Proof.
  intros Hmethod Hparse. unfold handler.
  rewrite Hmethod, jsstring_eqb_refl, Hparse. reflexivity.
Qed.

(** A body that parses to anything but [null] and has no truthy
    [prompt] is answered with status 400. *)
Lemma handler_prompt_required (w : World) (event : Event)
  (parsed prompt : jsval) :
  event_httpMethod event = lit "POST" ->
  JSON_parse (event_body event) = Some parsed ->
  Get parsed (lit "prompt") = Normal prompt ->
  truthy prompt = false ->
  handler w event
  = (Normal (plain 400 (jsonlit "Bad Request: 'prompt' is required.")), []).
Proof.
  intros Hmethod Hparse Hprompt Hfalsy. unfold handler.
  rewrite Hmethod, jsstring_eqb_refl, Hparse.
  rewrite (destructure2_Normal _ _ _ _ Hprompt).
  cbn [negb]. rewrite bind_ret, Hfalsy. reflexivity.
Qed.

(** Claim C5 at the body [null]: it is valid JSON without a [prompt], and
    the handler does not answer 400.  The object pattern
    [const { prompt, systemPrompt } = body] throws a TypeError outside
    any [try], so the invocation fails instead of returning a response. *)
Theorem handler_null_body_throws (w : World) :
  JSON_parse (lit "null") = Some JNull
  /\ handler w (post (lit "null")) = (Throw (TypeError_destructure JNull), []).
Proof. split; reflexivity. Qed.

(** ** Requests that pass validation *)

Section ValidRequest.

Variables (w : World) (event : Event) (parsed prompt : jsval).
Hypothesis Hmethod : event_httpMethod event = lit "POST".
Hypothesis Hparse : JSON_parse (event_body event) = Some parsed.
Hypothesis Hprompt : Get parsed (lit "prompt") = Normal prompt.
Hypothesis Htruthy : truthy prompt = true.

#[local] Abbreviation systemPrompt := (prop parsed (lit "systemPrompt")).

Lemma handler_valid_request :
  handler w event =
  (apiKey <- process_env w ;;
   if negb (truthy apiKey) then
     console_error
       [LogString (lit "GEMINI_API_KEY is not set in Netlify environment.")] ;;;
     ret (plain 500 (lit "Internal Server Error: API configuration missing."))
   else
     key <- lift (ToString apiKey) ;;
     call_gemini w (api_url_prefix ++ key) (payload_of prompt systemPrompt)).
Proof.
  unfold handler.
  rewrite Hmethod, jsstring_eqb_refl, Hparse.
  rewrite (destructure2_Normal _ _ _ _ Hprompt).
  cbn [negb]. rewrite bind_ret, Htruthy. reflexivity.
Qed.

(** Claim C2: when the credential is not configured, a valid request is
    answered with status 500 and a generic body.  The body is a constant,
    the same for every host and request, so it carries nothing of the
    configuration; the cause goes to [console.error] only, and its text
    does not occur in the body.  No outbound call is made. *)
Theorem handler_missing_credential :
  env_GEMINI_API_KEY w = None ->
  handler w event =
    (Normal (plain 500 (lit "Internal Server Error: API configuration missing.")),
     [env_read;
      ConsoleError
        [LogString (lit "GEMINI_API_KEY is not set in Netlify environment.")]])
  /\ includes (lit "Internal Server Error: API configuration missing.")
              (lit "GEMINI_API_KEY is not set in Netlify environment.") = false.
Proof.
  intros Henv. split; [|reflexivity].
  rewrite handler_valid_request. unfold process_env. rewrite Henv.
  reflexivity.
Qed.

(** Property X3: a credential set to the empty string counts as missing. *)
Lemma handler_empty_credential :
  env_GEMINI_API_KEY w = Some [] ->
  handler w event =
    (Normal (plain 500 (lit "Internal Server Error: API configuration missing.")),
     [env_read;
      ConsoleError
        [LogString (lit "GEMINI_API_KEY is not set in Netlify environment.")]]).
Proof.
  intros Henv.
  rewrite handler_valid_request. unfold process_env. rewrite Henv.
  reflexivity.
Qed.

Section WithCredential.

Variable key : jsstring.
Hypothesis Henv : env_GEMINI_API_KEY w = Some key.
Hypothesis Hkey : key <> [].

Lemma handler_with_credential :
  handler w event =
  (let '(r, t) := call_gemini w (api_url_prefix ++ key)
                    (payload_of prompt systemPrompt) in
   (r, env_read :: t)).
Proof.
  rewrite handler_valid_request. unfold process_env. rewrite Henv.
  destruct key as [|c k]; [contradiction|].
  cbn [bind truthy negb ToString]. rewrite bind_lift_Normal.
  reflexivity.
Qed.

(** Claim C3, as amended: for a valid request with the credential
    present, the handler makes exactly one outbound call, a POST to the
    model URL with the credential as [key], whose body is the JSON text of
    a [contents] list with a single entry whose single part holds the
    prompt, and a [systemInstruction] whose single part holds
    [systemPrompt] when that is truthy and the empty string otherwise. *)
Theorem handler_upstream_payload :
  exists (resp : Response) (rest : list Effect),
    handler w event =
      (Normal resp,
       env_read ::
       FetchCall
         {| req_url := api_url_prefix ++ key;
            req_method := lit "POST";
            req_headers := [(lit "Content-Type", lit "application/json")];
            req_body :=
              JSON_stringify_object
                [ (lit "contents",
                    JArr [JObj [(lit "parts",
                                  JArr [JObj [(lit "text", prompt)]])]]);
                  (lit "systemInstruction",
                    JObj [(lit "parts",
                            JArr [JObj [(lit "text",
                                         if truthy systemPrompt
                                         then systemPrompt
                                         else JStr [])]])]) ] |}
       :: rest)
    /\ no_fetch rest = true.
Proof.
  rewrite handler_with_credential.
  destruct (call_gemini_one_fetch w (api_url_prefix ++ key)
              (payload_of prompt systemPrompt)) as (resp & rest & E & Hrest).
  rewrite E. exists resp, rest. split; [reflexivity|exact Hrest].
Qed.

(** Claim C9: when the outbound call itself fails with an error [e], the
    handler answers with status 500 and a body that ends with the message
    of [e]. *)
Theorem handler_transport_error (e : JsError) :
  upstream w (sent_request key prompt systemPrompt) = Rejected e ->
  handler w event =
    (Normal (plain 500 (lit "Internal Server Error: " ++ error_message w e)),
     [env_read;
      FetchCall (sent_request key prompt systemPrompt);
      ConsoleError [LogString (lit "Error calling Gemini API:"); LogError e]]).
Proof.
  intros Hup. rewrite handler_with_credential.
  unfold call_gemini, fetch. fold (sent_request key prompt systemPrompt).
  rewrite Hup. reflexivity.
Qed.

(** Claim C4: when the upstream answers with a non-success status and
    body text [errorText], the handler reads that text and answers with
    the same status and the body [Gemini API Error: ] followed by the
    text, which therefore occurs in the body. *)
Theorem handler_upstream_error (r : Upstream) (errorText : jsstring) :
  upstream w (sent_request key prompt systemPrompt) = Responded r ->
  ok r = false ->
  text r = Normal errorText ->
  handler w event =
    (Normal (plain (status r) (lit "Gemini API Error: " ++ errorText)),
     [env_read;
      FetchCall (sent_request key prompt systemPrompt);
      ReadText;
      ConsoleError
        [LogString (lit "Gemini API error: " ++
                    number_to_string (number_of_N (status r)));
         LogString errorText]])
  /\ includes (lit "Gemini API Error: " ++ errorText) errorText = true.
Proof.
  intros Hup Hok Htext. split; [|apply includes_suffix].
  rewrite handler_with_credential.
  unfold call_gemini, fetch, response_text.
  fold (sent_request key prompt systemPrompt).
  rewrite Hup. cbn [bind try_catch]. rewrite Hok, Htext. reflexivity.
Qed.

Section ParsedAnswer.

Variables (r : Upstream) (answer : jsstring) (result : jsval).
Hypothesis Hup :
  upstream w (sent_request key prompt systemPrompt) = Responded r.
Hypothesis Hok : ok r = true.
Hypothesis Htext : text r = Normal answer.
Hypothesis Hjson : JSON_parse answer = Some result.

Lemma handler_parsed_answer :
  handler w event =
  match fst (answer_from result) with
  | Normal a =>
      (Normal a,
       [env_read; FetchCall (sent_request key prompt systemPrompt); ReadJson])
  | Throw e =>
      (Normal (plain 500 (lit "Internal Server Error: " ++ error_message w e)),
       [env_read; FetchCall (sent_request key prompt systemPrompt); ReadJson;
        ConsoleError [LogString (lit "Error calling Gemini API:"); LogError e]])
  end.
Proof.
  rewrite handler_with_credential.
  unfold call_gemini, fetch, response_json.
  fold (sent_request key prompt systemPrompt).
  rewrite Hup. cbn [bind try_catch]. rewrite Hok, Htext, Hjson.
  cbn [negb bind].
  pose proof (answer_from_pure result) as Hpure.
  destruct (answer_from result) as [[a|e] t]; cbn [snd fst] in *; subst t;
    reflexivity.
Qed.

(** Claim C1: when the upstream answers successfully with a candidate
    list whose first candidate has a first content part with text [txt],
    the handler answers with status 200, the JSON content type and the
    JSON text of [{ text: txt }]. *)
Theorem handler_first_candidate_text
  (c content part txt : jsval) (cs ps : list jsval) :
  Get result (lit "candidates") = Normal (JArr (c :: cs)) ->
  Get c (lit "content") = Normal content ->
  Get content (lit "parts") = Normal (JArr (part :: ps)) ->
  Get part (lit "text") = Normal txt ->
  handler w event =
    (Normal {| statusCode := 200;
               headers := [(lit "Content-Type", lit "application/json")];
               body := JSON_stringify_object [(lit "text", txt)] |},
     [env_read; FetchCall (sent_request key prompt systemPrompt); ReadJson]).
Proof.
  intros Hc Hcontent Hparts Htxt.
  rewrite handler_parsed_answer. unfold answer_from.
  rewrite Hc, bind_lift_Normal. cbn [truthy].
  rewrite Get_length, bind_lift_Normal, nonempty_length, bind_lift_Normal.
  rewrite Get_first, bind_lift_Normal, Hcontent, bind_lift_Normal.
  rewrite Hparts, bind_lift_Normal, Get_first, bind_lift_Normal.
  rewrite Htxt, bind_lift_Normal. reflexivity.
Qed.

(** Claim C6, as amended: when the upstream answers successfully with a
    JSON body other than [null] whose [candidates] is absent, falsy or an
    empty list, the handler answers with status 500 and the fixed body
    [Gemini API returned no candidates.] *)
Theorem handler_no_candidates (candidates : jsval) :
  Get result (lit "candidates") = Normal candidates ->
  truthy candidates = false \/ candidates = JArr [] ->
  handler w event =
    (Normal (plain 500 (lit "Gemini API returned no candidates.")),
     [env_read; FetchCall (sent_request key prompt systemPrompt); ReadJson]).
Proof.
  intros Hc Hnone.
  rewrite handler_parsed_answer. unfold answer_from.
  rewrite Hc, bind_lift_Normal.
  destruct Hnone as [Hfalsy| ->].
  - rewrite Hfalsy, bind_ret. reflexivity.
  - reflexivity.
Qed.

(** Claim C10: when the candidate list is non-empty but its first
    candidate lacks the expected shape (no content, no parts, no first
    part), the read of the text throws an error [e]; the handler does not
    throw: it catches [e], logs it and answers with status 500 and a body
    that ends with the message of [e]. *)
Theorem handler_misshapen_candidate (c : jsval) (cs : list jsval) :
  Get result (lit "candidates") = Normal (JArr (c :: cs)) ->
  misshapen c ->
  exists e : JsError,
    first_part_text c = Throw e
    /\ handler w event =
      (Normal (plain 500 (lit "Internal Server Error: " ++ error_message w e)),
       [env_read; FetchCall (sent_request key prompt systemPrompt); ReadJson;
        ConsoleError [LogString (lit "Error calling Gemini API:"); LogError e]]).
Proof.
  intros Hc Hshape.
  apply misshapen_throws in Hshape as [e He]. exists e. split; [exact He|].
  rewrite handler_parsed_answer. unfold answer_from.
  rewrite Hc, bind_lift_Normal. cbn [truthy].
  rewrite Get_length, bind_lift_Normal, nonempty_length, bind_lift_Normal.
  rewrite Get_first, bind_lift_Normal.
  unfold first_part_text in He.
  destruct (Get c (lit "content")) as [content|e1];
    [rewrite bind_lift_Normal|injection He as ->; reflexivity].
  destruct (Get content (lit "parts")) as [parts|e2];
    [rewrite bind_lift_Normal|injection He as ->; reflexivity].
  destruct (Get parts (lit "0")) as [part|e3];
    [rewrite bind_lift_Normal|injection He as ->; reflexivity].
  rewrite He. reflexivity.
Qed.

End ParsedAnswer.
End WithCredential.
End ValidRequest.

(** ** The one way out of the handler without a response *)

(** Property X2: the handler throws only when the body is the JSON text of
    [null]: the TypeError of the object pattern, before anything is done
    to the outside. On every other request it returns a response. *)
Lemma handler_throws_only_on_null (w : World) (event : Event)
  (e : JsError) (t : list Effect) :
  handler w event = (Throw e, t) ->
  JSON_parse (event_body event) = Some JNull
  /\ e = TypeError_destructure JNull /\ t = [].
Proof.
  intros H.
  destruct (jsstring_eqb (event_httpMethod event) (lit "POST")) eqn:Hm;
    [|unfold handler in H; rewrite Hm in H; discriminate].
  apply jsstring_eqb_eq in Hm.
  destruct (JSON_parse (event_body event)) as [parsed|] eqn:Hparse;
    [|unfold handler in H;
      rewrite Hm, jsstring_eqb_refl, Hparse in H; discriminate].
  assert (Hnull : parsed = JNull \/ ~ nullish parsed).
  { destruct parsed; try (right; intros [?|?]; discriminate).
    - exfalso. apply (JSON_parse_defined _ _ Hparse). reflexivity.
    - left. reflexivity. }
  destruct Hnull as [-> | Hdef].
  - unfold handler in H.
    rewrite Hm, jsstring_eqb_refl, Hparse in H. cbn in H.
    injection H as <- <-. repeat split.
  - exfalso.
    assert (Hp : Get parsed (lit "prompt")
                 = Normal (prop parsed (lit "prompt"))).
    { unfold prop. destruct (Get parsed (lit "prompt")) eqn:G;
        [reflexivity|]. apply Get_throws in G. contradiction. }
    destruct (truthy (prop parsed (lit "prompt"))) eqn:Ht.
    + destruct (env_GEMINI_API_KEY w) as [[|c k]|] eqn:Henv.
      * rewrite (handler_valid_request w event _ _ Hm Hparse Hp Ht) in H.
        unfold process_env in H. rewrite Henv in H. discriminate.
      * rewrite (handler_with_credential w event _ _ Hm Hparse Hp Ht
                   (c :: k) Henv) in H by discriminate.
        destruct (call_gemini_one_fetch w (api_url_prefix ++ c :: k)
                    (payload_of (prop parsed (lit "prompt"))
                       (prop parsed (lit "systemPrompt"))))
          as (resp & rest & E & _).
        rewrite E in H. discriminate.
      * rewrite (handler_valid_request w event _ _ Hm Hparse Hp Ht) in H.
        unfold process_env in H. rewrite Henv in H. discriminate.
    + rewrite (handler_prompt_required w event _ _ Hm Hparse Hp Ht) in H.
      discriminate.
Qed.

(** ** Further paths through the handler *)

(** Property X1: a body that parses to anything but [null] and carries no
    truthy [prompt] (no such property, or a falsy one: the empty string,
    [0], [false], [null]; a body that is an array, a string, a number or
    a boolean) is
    answered with status 400 and [Bad Request: "prompt" is required.],
    before the configuration is read or anything is logged or sent. *)
Theorem handler_prompt_missing (w : World) (event : Event) (parsed : jsval) :
  event_httpMethod event = lit "POST" ->
  JSON_parse (event_body event) = Some parsed ->
  parsed <> JNull ->
  truthy (prop parsed (lit "prompt")) = false ->
  handler w event
  = (Normal (plain 400 (jsonlit "Bad Request: 'prompt' is required.")), []).
Proof.
  intros Hm Hparse Hnull Hfalsy.
  apply handler_prompt_required with (parsed := parsed)
                                     (prompt := prop parsed (lit "prompt"));
    try assumption.
  unfold prop. destruct (Get parsed (lit "prompt")) eqn:G; [reflexivity|].
  apply Get_throws in G. destruct G as [-> | ->]; [|contradiction].
  exfalso. apply (JSON_parse_defined _ _ Hparse). reflexivity.
Qed.

Section UpstreamAnswers.

Variables (w : World) (event : Event) (parsed prompt : jsval) (key : jsstring).
Hypothesis Hmethod : event_httpMethod event = lit "POST".
Hypothesis Hparse : JSON_parse (event_body event) = Some parsed.
Hypothesis Hprompt : Get parsed (lit "prompt") = Normal prompt.
Hypothesis Htruthy : truthy prompt = true.
Hypothesis Henv : env_GEMINI_API_KEY w = Some key.
Hypothesis Hkey : key <> [].

#[local] Abbreviation the_request :=
  (sent_request key prompt (prop parsed (lit "systemPrompt"))).

(** Property X4: when the upstream answers but its body cannot be read
    (the connection breaks), the error [e] of the read is caught: the
    handler answers 500 with the message of [e], whatever the upstream
    status was; a non-success status is not passed on in that case. *)
Theorem handler_unreadable_answer (r : Upstream) (e : JsError) :
  upstream w the_request = Responded r ->
  text r = Throw e ->
  handler w event =
    (Normal (plain 500 (lit "Internal Server Error: " ++ error_message w e)),
     [env_read; FetchCall the_request;
      if ok r then ReadJson else ReadText;
      ConsoleError [LogString (lit "Error calling Gemini API:"); LogError e]]).
Proof.
  intros Hup Htext.
  rewrite (handler_with_credential w event parsed prompt
             Hmethod Hparse Hprompt Htruthy key Henv Hkey).
  unfold call_gemini, fetch, response_text, response_json.
  fold the_request. rewrite Hup. cbn [bind try_catch].
  rewrite Htext. destruct (ok r); reflexivity.
Qed.

(** Property X5: when the upstream answers with a success status and a
    body that is not JSON, [response.json()] throws a SyntaxError; the
    handler catches it and answers 500 with that error's message. *)
Theorem handler_answer_not_json (r : Upstream) (answer : jsstring) :
  upstream w the_request = Responded r ->
  ok r = true ->
  text r = Normal answer ->
  JSON_parse answer = None ->
  handler w event =
    (Normal (plain 500 (lit "Internal Server Error: "
                        ++ engine_message w (SyntaxError_json answer))),
     [env_read; FetchCall the_request; ReadJson;
      ConsoleError [LogString (lit "Error calling Gemini API:");
                    LogError (SyntaxError_json answer)]]).
Proof.
  intros Hup Hok Htext Hjson.
  rewrite (handler_with_credential w event parsed prompt
             Hmethod Hparse Hprompt Htruthy key Henv Hkey).
  unfold call_gemini, fetch, response_json.
  fold the_request. rewrite Hup. cbn [bind try_catch].
  rewrite Hok, Htext, Hjson. reflexivity.
Qed.

End UpstreamAnswers.

(** ** Every path through the handler *)

(** What [answer_from] returns is one of the two answers of its [if]. *)
Lemma answer_from_Normal (result : jsval) (a : Response) :
  fst (answer_from result) = Normal a ->
  a = no_candidates \/ exists txt : jsval, a = success txt.
Proof.
  unfold answer_from.
  repeat match goal with
  | |- context [lift ?c] =>
      destruct c;
      [rewrite bind_lift_Normal|rewrite bind_lift_Throw; discriminate]
  | |- context [if ?b then _ else _] => destruct b
  | |- context [bind (ret _) _] => rewrite bind_ret
  end; cbn [fst ret]; intros [= <-];
    first [left; reflexivity|right; eexists; reflexivity].
Qed.

Lemma call_gemini_settled (w : World) (apiUrl : jsstring)
  (payload : list (jsstring * jsval)) :
  exists (resp : Response) (rest : list Effect),
    call_gemini w apiUrl payload
    = (Normal resp, FetchCall (gemini_request apiUrl payload) :: rest)
    /\ Settled w (gemini_request apiUrl payload) resp rest.
Proof.
  unfold call_gemini, fetch.
  destruct (upstream w (gemini_request apiUrl payload)) as [e|r] eqn:Hup.
  - eexists _, _. split; [reflexivity|]. apply settled_rejected. exact Hup.
  - cbn [bind try_catch]. unfold response_text, response_json.
    destruct (text r) as [t|e] eqn:Htext.
    + destruct (ok r) eqn:Hok; cbn [negb].
      * destruct (JSON_parse t) as [result|] eqn:Hjson.
        -- pose proof (answer_from_pure result) as Hpure.
           pose proof (answer_from_Normal result) as Hshape.
           cbn [bind].
           destruct (answer_from result) as [[a|e] t'] eqn:Ha;
             cbn [snd fst] in *; subst t'.
           ++ eexists _, _. split; [reflexivity|].
              destruct (Hshape a eq_refl) as [-> | [txt ->]].
              ** eapply settled_no_candidates; try eassumption.
                 rewrite Ha. reflexivity.
              ** eapply settled_success; try eassumption.
                 rewrite Ha. reflexivity.
           ++ eexists _, _. split; [reflexivity|].
              eapply settled_internal; try eassumption.
              rewrite Ha. reflexivity.
        -- eexists _, _. split; [reflexivity|].
           eapply settled_not_json; eassumption.
      * eexists _, _. split; [reflexivity|].
        eapply settled_upstream_error; eassumption.
    + pose proof (settled_unreadable w _ r e Hup Htext) as S.
      destruct (ok r); cbn [negb]; eexists _, _; (split; [reflexivity|exact S]).
Qed.

(** The handler follows one of the paths of [Invocation]. *)
Lemma handler_invocation (w : World) (event : Event) :
  Invocation w event (fst (handler w event)) (snd (handler w event)).
Proof.
  destruct (jsstring_eqb (event_httpMethod event) (lit "POST")) eqn:Hm.
  2:{ assert (Hne : event_httpMethod event <> lit "POST").
      { intros E. apply jsstring_eqb_eq in E. congruence. }
      unfold handler. rewrite Hm. apply invocation_method. exact Hne. }
  apply jsstring_eqb_eq in Hm.
  destruct (JSON_parse (event_body event)) as [parsed|] eqn:Hparse.
  2:{ unfold handler. rewrite Hm, jsstring_eqb_refl, Hparse.
      apply invocation_invalid_json; assumption. }
  assert (Hnull : parsed = JNull \/ ~ nullish parsed).
  { destruct parsed; try (right; intros [?|?]; discriminate).
    - exfalso. apply (JSON_parse_defined _ _ Hparse). reflexivity.
    - left. reflexivity. }
  destruct Hnull as [-> | Hdef].
  { unfold handler. rewrite Hm, jsstring_eqb_refl, Hparse.
    apply invocation_null; assumption. }
  assert (Hnn : parsed <> JNull).
  { intros ->. apply Hdef. right. reflexivity. }
  assert (Hp : Get parsed (lit "prompt") = Normal (prop parsed (lit "prompt"))).
  { unfold prop. destruct (Get parsed (lit "prompt")) eqn:G; [reflexivity|].
    apply Get_throws in G. contradiction. }
  destruct (truthy (prop parsed (lit "prompt"))) eqn:Ht.
  2:{ rewrite (handler_prompt_required w event _ _ Hm Hparse Hp Ht).
      eapply invocation_prompt; eassumption. }
  destruct (env_GEMINI_API_KEY w) as [[|c k]|] eqn:Henv.
  - rewrite (handler_valid_request w event _ _ Hm Hparse Hp Ht).
    unfold process_env. rewrite Henv.
    eapply invocation_configuration; try eassumption. right. exact Henv.
  - rewrite (handler_with_credential w event _ _ Hm Hparse Hp Ht
               (c :: k) Henv) by discriminate.
    destruct (call_gemini_settled w (api_url_prefix ++ c :: k)
                (payload_of (prop parsed (lit "prompt"))
                   (prop parsed (lit "systemPrompt"))))
      as (resp & rest & E & S).
    rewrite E. cbn [fst snd].
    eapply invocation_upstream; try eassumption. discriminate.
  - rewrite (handler_valid_request w event _ _ Hm Hparse Hp Ht).
    unfold process_env. rewrite Henv.
    eapply invocation_configuration; try eassumption. left. exact Henv.
Qed.

(** ** What holds of every invocation *)

Lemma not_ok_not_200 (code : N) :
  ((200 <=? code) && (code <=? 299))%N = false -> (code =? 200)%N = false.
Proof.
  intros H. destruct (code =? 200)%N eqn:E; [|reflexivity].
  apply N.eqb_eq in E. subst code. discriminate.
Qed.

(** Property X6: an answer with a status from 200 to 299 is always the
    answer of the success path: status exactly 200, the JSON content type,
    the JSON text of [{ text: txt }] where [txt] was read from a
    successful upstream answer; the only effects are the read of the
    credential, the one outbound call and the read of its body, and
    nothing is logged. *)
Theorem handler_success_is_genuine (w : World) (event : Event)
  (resp : Response) (t : list Effect) :
  handler w event = (Normal resp, t) ->
  ((200 <=? statusCode resp) && (statusCode resp <=? 299))%N = true ->
  exists (txt : jsval) (req : Request) (r : Upstream)
         (answer : jsstring) (result : jsval),
    resp = success txt
    /\ t = [env_read; FetchCall req; ReadJson]
    /\ upstream w req = Responded r
    /\ ok r = true
    /\ text r = Normal answer
    /\ JSON_parse answer = Some result
    /\ fst (answer_from result) = Normal (success txt).
Proof.
  intros H Hrange. pose proof (handler_invocation w event) as I.
  rewrite H in I. cbn [fst snd] in I.
  inversion I as [| | | | |parsed key resp' rest Hm Hp Hn Ht He Hk S];
    subst; try discriminate.
  inversion S; subst; try discriminate.
  - unfold ok in *. cbn [statusCode plain] in Hrange. congruence.
  - eexists _, _, _, _, _. repeat split; eassumption.
Qed.

(** Property X7: the status of every answer is 200, 400, 405 or 500, or
    else it is the status of an upstream answer outside 200 to 299 that
    the handler received in this invocation. *)
Theorem handler_status_codes (w : World) (event : Event)
  (resp : Response) (t : list Effect) :
  handler w event = (Normal resp, t) ->
  In (statusCode resp) [200; 400; 405; 500]%N
  \/ exists (req : Request) (r : Upstream),
       In (FetchCall req) t
       /\ upstream w req = Responded r
       /\ ok r = false
       /\ statusCode resp = status r.
Proof.
  intros H. pose proof (handler_invocation w event) as I.
  rewrite H in I. cbn [fst snd] in I.
  inversion I as [| | | | |parsed key resp' rest Hm Hp Hn Ht He Hk S];
    subst; cbn [statusCode plain In]; try (left; tauto).
  inversion S; subst;
    cbn [statusCode plain internal_error no_candidates success In];
    try (left; tauto).
  right. eexists _, _. repeat split; try eassumption.
  right. left. reflexivity.
Qed.

(** Property X8: only the 200 answer carries headers (the JSON content
    type); every other answer has none, its body being plain text. *)
Theorem handler_headers (w : World) (event : Event)
  (resp : Response) (t : list Effect) :
  handler w event = (Normal resp, t) ->
  headers resp
  = if (statusCode resp =? 200)%N then json_content_type else [].
Proof.
  intros H. pose proof (handler_invocation w event) as I.
  rewrite H in I. cbn [fst snd] in I.
  inversion I as [| | | | |parsed key resp' rest Hm Hp Hn Ht He Hk S];
    subst; try reflexivity.
  inversion S; subst; try reflexivity.
  cbn [statusCode headers plain].
  match goal with
  | Hok : ok _ = false |- _ => unfold ok in Hok; rewrite (not_ok_not_200 _ Hok)
  end.
  reflexivity.
Qed.

(** Property X9: an invocation makes at most one outbound call: nothing is
    retried, whatever the upstream does. *)
Theorem handler_at_most_one_fetch (w : World) (event : Event) :
  (fetch_count (snd (handler w event)) <= 1)%nat.
Proof.
  pose proof (handler_invocation w event) as I.
  inversion I as [| | | | |parsed key resp' rest Hm Hp Hn Ht He Hk S];
    cbn; try lia.
  inversion S; subst; unfold caught; cbn; try lia.
  match goal with |- context [ok ?r] => destruct (ok r) end; cbn; lia.
Qed.

(** Property X10: an outbound call is made only for a POST request whose
    body has a truthy [prompt], and only with a non-empty credential; the
    request is then the one built from that credential and the two fields. *)
Theorem handler_fetch_is_guarded (w : World) (event : Event) (req : Request) :
  In (FetchCall req) (snd (handler w event)) ->
  event_httpMethod event = lit "POST"
  /\ exists (parsed : jsval) (key : jsstring),
       JSON_parse (event_body event) = Some parsed
       /\ truthy (prop parsed (lit "prompt")) = true
       /\ env_GEMINI_API_KEY w = Some key
       /\ key <> []
       /\ req = sent_request key (prop parsed (lit "prompt"))
                  (prop parsed (lit "systemPrompt")).
Proof.
  pose proof (handler_invocation w event) as I.
  remember (fst (handler w event)) as c eqn:Ec.
  remember (snd (handler w event)) as t eqn:Et. clear Ec Et.
  intros Hin.
  destruct I as [| | | | |parsed key resp rest Hm Hp Hn Ht He Hk HS];
    cbn [In] in Hin; try contradiction.
  - unfold env_read in Hin. destruct Hin as [Hin|[Hin|[]]]; discriminate.
  - split; [exact Hm|]. exists parsed, key.
    repeat split; try assumption.
    unfold env_read in Hin. destruct Hin as [Hin|[Hin|Hin]];
      [discriminate|congruence|].
    exfalso. destruct HS; cbn [In] in Hin; unfold caught in Hin;
      repeat match goal with
      | H : _ \/ _ |- _ => destruct H
      | H : context [ok ?r] |- _ => destruct (ok r)
      end; try discriminate; try contradiction.
Qed.

(** ** Where the credential goes *)

Lemma error_message_ext (w1 w2 : World) (e : JsError) :
  (forall e', engine_message w1 e' = engine_message w2 e') ->
  error_message w1 e = error_message w2 e.
Proof. intros H. destruct e; cbn [error_message]; auto. Qed.

Lemma includes_app_r (a b p : jsstring) :
  includes b p = true -> includes (a ++ b) p = true.
Proof.
  intros H. induction a as [|x a IH]; [exact H|].
  cbn [app includes]. rewrite IH. apply orb_true_r.
Qed.

(** Property X11: the credential is used for the URL of the outbound call
    and for nothing else: two hosts that differ in their (non-empty)
    credentials but whose upstream gives the same outcome answer a valid
    request with the same response and perform the same effects apart from
    the call itself. Neither the response nor the log is computed from the
    credential. *)
Theorem credential_only_in_request (w1 w2 : World) (event : Event)
  (parsed prompt : jsval) (k1 k2 : jsstring) :
  event_httpMethod event = lit "POST" ->
  JSON_parse (event_body event) = Some parsed ->
  Get parsed (lit "prompt") = Normal prompt ->
  truthy prompt = true ->
  env_GEMINI_API_KEY w1 = Some k1 -> k1 <> [] ->
  env_GEMINI_API_KEY w2 = Some k2 -> k2 <> [] ->
  (forall e, engine_message w1 e = engine_message w2 e) ->
  upstream w1 (sent_request k1 prompt (prop parsed (lit "systemPrompt")))
  = upstream w2 (sent_request k2 prompt (prop parsed (lit "systemPrompt"))) ->
  fst (handler w1 event) = fst (handler w2 event)
  /\ without_fetch (snd (handler w1 event))
     = without_fetch (snd (handler w2 event)).
Proof.
  intros Hm Hparse Hp Ht He1 Hk1 He2 Hk2 Hmsg Hup.
  rewrite (handler_with_credential w1 event parsed prompt Hm Hparse Hp Ht
             k1 He1 Hk1).
  rewrite (handler_with_credential w2 event parsed prompt Hm Hparse Hp Ht
             k2 He2 Hk2).
  unfold call_gemini, fetch, response_text, response_json.
  fold (sent_request k1 prompt (prop parsed (lit "systemPrompt"))).
  fold (sent_request k2 prompt (prop parsed (lit "systemPrompt"))).
  rewrite Hup.
  destruct (upstream w2
              (sent_request k2 prompt (prop parsed (lit "systemPrompt"))))
    as [e|r].
  - cbn. rewrite (error_message_ext w1 w2 e Hmsg). split; reflexivity.
  - cbn [bind try_catch].
    destruct (ok r); cbn [negb]; destruct (text r) as [txt|e].
    + destruct (JSON_parse txt) as [result|].
      * pose proof (answer_from_pure result) as Hpure. cbn [bind].
        destruct (answer_from result) as [[a|e] t']; cbn [snd] in Hpure;
          subst t'; cbn;
          try rewrite (error_message_ext w1 w2 e Hmsg); split; reflexivity.
      * cbn. rewrite Hmsg. split; reflexivity.
    + cbn. rewrite (error_message_ext w1 w2 e Hmsg). split; reflexivity.
    + cbn. split; reflexivity.
    + cbn. rewrite (error_message_ext w1 w2 e Hmsg). split; reflexivity.
Qed.

(** Property X12: the text of an upstream error is passed on as it is:
    whatever occurs in it occurs in the body of the answer, the credential
    included when the upstream echoes it. *)
Theorem upstream_text_reaches_client (w : World) (event : Event)
  (parsed prompt : jsval) (key : jsstring) (r : Upstream)
  (errorText leaked : jsstring) :
  event_httpMethod event = lit "POST" ->
  JSON_parse (event_body event) = Some parsed ->
  Get parsed (lit "prompt") = Normal prompt ->
  truthy prompt = true ->
  env_GEMINI_API_KEY w = Some key -> key <> [] ->
  upstream w (sent_request key prompt (prop parsed (lit "systemPrompt")))
  = Responded r ->
  ok r = false ->
  text r = Normal errorText ->
  includes errorText leaked = true ->
  exists (resp : Response) (t : list Effect),
    handler w event = (Normal resp, t)
    /\ statusCode resp = status r
    /\ includes (body resp) leaked = true.
Proof.
  intros Hm Hparse Hp Ht He Hk Hup Hok Htext Hleak.
  rewrite (handler_with_credential w event parsed prompt Hm Hparse Hp Ht
             key He Hk).
  unfold call_gemini, fetch, response_text.
  fold (sent_request key prompt (prop parsed (lit "systemPrompt"))).
  rewrite Hup. cbn [bind try_catch]. rewrite Hok, Htext.
  eexists _, _. split; [reflexivity|]. split; [reflexivity|].
  cbn [body plain]. apply includes_app_r. exact Hleak.
Qed.

(** ** What the handler reads of the body *)

(** Property X13: only [prompt] and [systemPrompt] are read from the body:
    two POST requests whose bodies agree on these two properties are
    treated alike by the same host, whatever else the bodies contain. *)
Theorem handler_reads_two_fields (w : World) (e1 e2 : Event)
  (p1 p2 : jsval) :
  event_httpMethod e1 = lit "POST" ->
  event_httpMethod e2 = lit "POST" ->
  JSON_parse (event_body e1) = Some p1 ->
  JSON_parse (event_body e2) = Some p2 ->
  p1 <> JNull -> p2 <> JNull ->
  prop p1 (lit "prompt") = prop p2 (lit "prompt") ->
  prop p1 (lit "systemPrompt") = prop p2 (lit "systemPrompt") ->
  handler w e1 = handler w e2.
Proof.
  intros Hm1 Hm2 Hp1 Hp2 Hn1 Hn2 Hprompt Hsys.
  assert (G : forall p b, JSON_parse b = Some p -> p <> JNull ->
                Get p (lit "prompt") = Normal (prop p (lit "prompt"))).
  { intros p b Hp Hn. unfold prop.
    destruct (Get p (lit "prompt")) eqn:E; [reflexivity|].
    apply Get_throws in E. destruct E as [-> | ->]; [|contradiction].
    exfalso. apply (JSON_parse_defined _ _ Hp). reflexivity. }
  pose proof (G _ _ Hp1 Hn1) as G1. pose proof (G _ _ Hp2 Hn2) as G2.
  destruct (truthy (prop p1 (lit "prompt"))) eqn:Ht.
  - rewrite (handler_valid_request w e1 p1 _ Hm1 Hp1 G1 Ht).
    rewrite Hprompt in Ht.
    rewrite (handler_valid_request w e2 p2 _ Hm2 Hp2 G2 Ht).
    rewrite Hprompt, Hsys. reflexivity.
  - rewrite (handler_prompt_required w e1 p1 _ Hm1 Hp1 G1 Ht).
    rewrite Hprompt in Ht.
    rewrite (handler_prompt_required w e2 p2 _ Hm2 Hp2 G2 Ht).
    reflexivity.
Qed.

(** ** What is written as JSON reads back *)

(** [quote_chars] by tests instead of patterns. *)
Lemma quote_chars_cons (c : code_unit) (rest : jsstring) :
  quote_chars (c :: rest) =
  if (c =? 8)%N then lit "\b" ++ quote_chars rest
  else if (c =? 9)%N then lit "\t" ++ quote_chars rest
  else if (c =? 10)%N then lit "\n" ++ quote_chars rest
  else if (c =? 12)%N then lit "\f" ++ quote_chars rest
  else if (c =? 13)%N then lit "\r" ++ quote_chars rest
  else if (c =? 34)%N then [92%N; 34%N] ++ quote_chars rest
  else if (c =? 92)%N then [92%N; 92%N] ++ quote_chars rest
  else if (c <? 32)%N || is_low_surrogate c
  then unicode_escape c ++ quote_chars rest
  else if is_high_surrogate c then
    match rest with
    | d :: rest' =>
        if is_low_surrogate d then c :: d :: quote_chars rest'
        else unicode_escape c ++ quote_chars rest
    | [] => unicode_escape c
    end
  else c :: quote_chars rest.
Proof.
  destruct c as [|p]; [reflexivity|].
  do 7 (try (destruct p as [p|p|]; try reflexivity)).
Qed.

Lemma parse_chars_cons (c : code_unit) (rest : jsstring) :
  parse_chars (c :: rest) =
  if (c =? 34)%N then Some ([], rest)
  else if (c =? 92)%N then
    match rest with
    | [] => None
    | e :: rest1 =>
        if (e =? 117)%N then
          match rest1 with
          | h1 :: h2 :: h3 :: h4 :: rest2 =>
              match radix_value 16 [h1; h2; h3; h4] 0 with
              | Some u =>
                  match parse_chars rest2 with
                  | Some (str, r) => Some (Z.to_N u :: str, r)
                  | None => None
                  end
              | None => None
              end
          | _ => None
          end
        else
          match simple_escape e with
          | Some x =>
              match parse_chars rest1 with
              | Some (str, r) => Some (x :: str, r)
              | None => None
              end
          | None => None
          end
    end
  else if (c <? 32)%N then None
  else
    match parse_chars rest with
    | Some (str, r) => Some (c :: str, r)
    | None => None
    end.
Proof. reflexivity. Qed.

Lemma radix_digit_hex (d : Z) :
  0 <= d < 16 -> radix_digit (hex_digit d) = Some d.
Proof.
  intros H.
  assert (E : d = 0 \/ d = 1 \/ d = 2 \/ d = 3 \/ d = 4 \/ d = 5 \/ d = 6
              \/ d = 7 \/ d = 8 \/ d = 9 \/ d = 10 \/ d = 11 \/ d = 12
              \/ d = 13 \/ d = 14 \/ d = 15) by lia.
  repeat (destruct E as [-> | E]; [reflexivity|]). subst d. reflexivity.
Qed.

(** The four hexadecimal digits of a [\u] escape read back as the code
    unit they were written from. *)
Lemma radix_value_escape (c : code_unit) :
  (c < 65536)%N ->
  radix_value 16
    [hex_digit (Z.of_N c / 4096 mod 16); hex_digit (Z.of_N c / 256 mod 16);
     hex_digit (Z.of_N c / 16 mod 16); hex_digit (Z.of_N c mod 16)] 0
  = Some (Z.of_N c).
Proof.
  intros Hc. set (z := Z.of_N c). assert (Hz : 0 <= z < 65536) by lia.
  clearbody z.
  cbn [radix_value].
  rewrite !radix_digit_hex by (apply Z.mod_pos_bound; lia).
  assert (H1 : (z / 4096 mod 16 <? 16) = true)
    by (apply Z.ltb_lt, Z.mod_pos_bound; lia).
  assert (H2 : (z / 256 mod 16 <? 16) = true)
    by (apply Z.ltb_lt, Z.mod_pos_bound; lia).
  assert (H3 : (z / 16 mod 16 <? 16) = true)
    by (apply Z.ltb_lt, Z.mod_pos_bound; lia).
  assert (H4 : (z mod 16 <? 16) = true)
    by (apply Z.ltb_lt, Z.mod_pos_bound; lia).
  rewrite H1, H2, H3, H4. f_equal.
  Z.to_euclidean_division_equations. lia.
Qed.

Lemma parse_unicode_escape (c : code_unit) (tail : jsstring) :
  (c < 65536)%N ->
  parse_chars (unicode_escape c ++ tail)
  = match parse_chars tail with
    | Some (str, r) => Some (c :: str, r)
    | None => None
    end.
Proof.
  intros Hc. unfold unicode_escape.
  change (lit "\u") with [92%N; 117%N]. cbn [app].
  rewrite parse_chars_cons.
  change (92 =? 34)%N with false. change (92 =? 92)%N with true.
  change (117 =? 117)%N with true. cbv iota.
  rewrite (radix_value_escape c Hc), N2Z.id. reflexivity.
Qed.

(** A quoted string reads back: after the characters that
    [JSON.stringify] writes for [s] and the closing quote, the parser
    yields [s] and what follows the quote. *)
Lemma parse_quote_chars (n : nat) :
  forall (s rest : jsstring),
    (List.length s <= n)%nat ->
    parse_chars (quote_chars s ++ 34%N :: rest) = Some (s, rest).
Proof.
  induction n as [|n IH]; intros s rest Hn; destruct s as [|c s'];
    cbn [List.length] in Hn; try lia; try reflexivity.
  assert (IHs : forall rest0, parse_chars (quote_chars s' ++ 34%N :: rest0)
                              = Some (s', rest0))
    by (intros; apply IH; lia).
  rewrite quote_chars_cons.
  destruct (c =? 8)%N eqn:E8;
    [apply N.eqb_eq in E8; subst c; change (lit "\b") with [92%N; 98%N];
     cbn [app];
     rewrite parse_chars_cons; cbn; rewrite IHs; reflexivity|].
  destruct (c =? 9)%N eqn:E9;
    [apply N.eqb_eq in E9; subst c; change (lit "\t") with [92%N; 116%N];
     cbn [app]; rewrite parse_chars_cons; cbn; rewrite IHs; reflexivity|].
  destruct (c =? 10)%N eqn:E10;
    [apply N.eqb_eq in E10; subst c; change (lit "\n") with [92%N; 110%N];
     cbn [app]; rewrite parse_chars_cons; cbn; rewrite IHs; reflexivity|].
  destruct (c =? 12)%N eqn:E12;
    [apply N.eqb_eq in E12; subst c; change (lit "\f") with [92%N; 102%N];
     cbn [app]; rewrite parse_chars_cons; cbn; rewrite IHs; reflexivity|].
  destruct (c =? 13)%N eqn:E13;
    [apply N.eqb_eq in E13; subst c; change (lit "\r") with [92%N; 114%N];
     cbn [app]; rewrite parse_chars_cons; cbn; rewrite IHs; reflexivity|].
  destruct (c =? 34)%N eqn:E34;
    [apply N.eqb_eq in E34; subst c; cbn [app];
     rewrite parse_chars_cons; cbn; rewrite IHs; reflexivity|].
  destruct (c =? 92)%N eqn:E92;
    [apply N.eqb_eq in E92; subst c; cbn [app];
     rewrite parse_chars_cons; cbn; rewrite IHs; reflexivity|].
  destruct (c <? 32)%N eqn:E32.
  { cbn [orb]. rewrite <- app_assoc, parse_unicode_escape, IHs;
      [reflexivity|apply N.ltb_lt in E32; lia]. }
  cbn [orb]. unfold is_low_surrogate, is_high_surrogate.
  destruct ((56320 <=? c)%N && (c <=? 57343)%N) eqn:Elow.
  { apply andb_true_iff in Elow as [L1 L2].
    apply N.leb_le in L1, L2.
    rewrite <- app_assoc, parse_unicode_escape, IHs; [reflexivity|lia]. }
  destruct ((55296 <=? c)%N && (c <=? 56319)%N) eqn:Ehigh.
  - apply andb_true_iff in Ehigh as [H1 H2]. apply N.leb_le in H1, H2.
    destruct s' as [|d s''].
    + rewrite parse_unicode_escape by lia.
      rewrite parse_chars_cons. reflexivity.
    + destruct ((56320 <=? d)%N && (d <=? 57343)%N) eqn:Ed.
      * apply andb_true_iff in Ed as [D1 D2]. apply N.leb_le in D1, D2.
        cbn [app]. rewrite parse_chars_cons, E34, E92, E32.
        rewrite parse_chars_cons.
        assert (Hd1 : (d =? 34)%N = false) by (apply N.eqb_neq; lia).
        assert (Hd2 : (d =? 92)%N = false) by (apply N.eqb_neq; lia).
        assert (Hd3 : (d <? 32)%N = false) by (apply N.ltb_ge; lia).
        rewrite Hd1, Hd2, Hd3.
        rewrite (IH s'' rest) by (cbn [List.length] in Hn; lia).
        reflexivity.
      * rewrite <- app_assoc, parse_unicode_escape, IHs; [reflexivity|lia].
  - cbn [app]. rewrite parse_chars_cons, E34, E92, E32, IHs. reflexivity.
Qed.

Lemma reads_fuel (s rest : jsstring) (v : jsval) :
  reads s v rest ->
  forall g : nat, (2 * List.length s + 1 <= g)%nat ->
                  parse_value g s = Some (v, rest).
Proof.
  intros [f Hf]. destruct (parse_enough_fuel f) as [Hv _].
  apply (Hv _ _ Hf).
Qed.

Lemma reads_JSON_parse (s : jsstring) (v : jsval) :
  reads s v [] -> JSON_parse s = Some v.
Proof.
  intros [f Hf]. apply (JSON_parse_enough_fuel f s [] v Hf). reflexivity.
Qed.

Lemma reads_string (s rest : jsstring) :
  reads (34%N :: quote_chars s ++ 34%N :: rest) (JStr s) rest.
Proof.
  exists 1%nat. rewrite parse_value_S.
  cbn [skip_ws is_json_ws N.eqb Pos.eqb orb eat].
  rewrite (parse_quote_chars _ s rest (le_n _)). reflexivity.
Qed.

(** An object with one member. *)
Lemma reads_object_1 (k tail rest : jsstring) (v : jsval) :
  reads tail v (125%N :: rest) ->
  reads (123%N :: 34%N :: quote_chars k ++ 34%N :: 58%N :: tail)
    (JObj (define_property [] k v)) rest.
Proof.
  intros H. exists (S (S (2 * List.length tail + 1))).
  rewrite parse_value_S.
  cbn [skip_ws is_json_ws N.eqb Pos.eqb orb eat].
  rewrite parse_members_S.
  cbn [skip_ws is_json_ws N.eqb Pos.eqb orb eat].
  rewrite (parse_quote_chars _ k _ (le_n _)).
  cbn [skip_ws is_json_ws N.eqb Pos.eqb orb eat].
  rewrite (reads_fuel _ _ _ H) by lia.
  reflexivity.
Qed.

(** An object with two members. *)
Lemma reads_object_2 (k1 k2 t1 t2 rest : jsstring) (v1 v2 : jsval) :
  reads t1 v1 (44%N :: 34%N :: quote_chars k2 ++ 34%N :: 58%N :: t2) ->
  reads t2 v2 (125%N :: rest) ->
  reads (123%N :: 34%N :: quote_chars k1 ++ 34%N :: 58%N :: t1)
    (JObj (define_property (define_property [] k1 v1) k2 v2)) rest.
Proof.
  intros H1 H2.
  exists (S (S (S (2 * List.length t1 + 2 * List.length t2 + 1)))).
  rewrite parse_value_S.
  cbn [skip_ws is_json_ws N.eqb Pos.eqb orb eat].
  rewrite parse_members_S.
  cbn [skip_ws is_json_ws N.eqb Pos.eqb orb eat].
  rewrite (parse_quote_chars _ k1 _ (le_n _)).
  cbn [skip_ws is_json_ws N.eqb Pos.eqb orb eat].
  rewrite (reads_fuel _ _ _ H1) by lia.
  cbn [skip_ws is_json_ws N.eqb Pos.eqb orb eat].
  rewrite parse_members_S.
  cbn [skip_ws is_json_ws N.eqb Pos.eqb orb eat].
  rewrite (parse_quote_chars _ k2 _ (le_n _)).
  cbn [skip_ws is_json_ws N.eqb Pos.eqb orb eat].
  rewrite (reads_fuel _ _ _ H2) by lia.
  reflexivity.
Qed.

(** An array whose only element is an object. *)
Lemma reads_array_1 (t rest : jsstring) (v : jsval) :
  reads (123%N :: t) v (93%N :: rest) ->
  reads (91%N :: 123%N :: t) (JArr [v]) rest.
Proof.
  intros H. exists (S (S (2 * List.length (123%N :: t) + 1))).
  rewrite parse_value_S.
  cbn [skip_ws is_json_ws N.eqb Pos.eqb orb eat].
  rewrite parse_elements_S.
  rewrite (reads_fuel _ _ _ H) by apply le_n.
  reflexivity.
Qed.

Lemma stringified_text (txt : jsstring) :
  JSON_stringify_object [(lit "text", JStr txt)]
  = 123%N :: 34%N :: quote_chars (lit "text") ++ 34%N :: 58%N
    :: 34%N :: quote_chars txt ++ 34%N :: [125%N].
Proof.
  unfold JSON_stringify_object. cbn [SerializeJSONProperty join_with].
  unfold QuoteJSONString. rewrite <- !app_assoc. reflexivity.
Qed.

(** Property X14: the body of the 200 answer reads back: for a text that
    is a string, [JSON.parse] of the body gives an object whose only
    property is [text], holding that string code unit for code unit,
    quotes, backslashes, control characters and unpaired surrogates
    included. *)
Theorem success_body_reads_back (txt : jsstring) :
  JSON_parse (body (success (JStr txt)))
  = Some (JObj [(lit "text", JStr txt)]).
Proof.
  apply reads_JSON_parse. cbn [body success].
  rewrite stringified_text.
  apply (reads_object_1 (lit "text") _ [] (JStr txt)).
  apply reads_string.
Qed.

(** The JSON text of the payload, for string fields. *)
Lemma stringified_payload (p s : jsstring) :
  JSON_stringify_object
    [ (lit "contents",
        JArr [JObj [(lit "parts", JArr [JObj [(lit "text", JStr p)]])]]);
      (lit "systemInstruction",
        JObj [(lit "parts", JArr [JObj [(lit "text", JStr s)]])]) ]
  = 123%N :: 34%N :: quote_chars (lit "contents") ++ 34%N :: 58%N
    :: 91%N
    :: 123%N :: 34%N :: quote_chars (lit "parts") ++ 34%N :: 58%N
    :: 91%N
    :: 123%N :: 34%N :: quote_chars (lit "text") ++ 34%N :: 58%N
    :: 34%N :: quote_chars p ++ 34%N
    :: 125%N :: 93%N :: 125%N :: 93%N
    :: 44%N :: 34%N :: quote_chars (lit "systemInstruction") ++ 34%N :: 58%N
    :: 123%N :: 34%N :: quote_chars (lit "parts") ++ 34%N :: 58%N
    :: 91%N
    :: 123%N :: 34%N :: quote_chars (lit "text") ++ 34%N :: 58%N
    :: 34%N :: quote_chars s ++ 34%N
    :: 125%N :: 93%N :: 125%N :: [125%N].
Proof.
  unfold JSON_stringify_object. cbn [SerializeJSONProperty join_with].
  unfold QuoteJSONString. repeat rewrite <- app_assoc. reflexivity.
Qed.

(** [x || ""] is a string when [x] is absent or a string. *)
Lemma js_or_string (sp : jsval) :
  sp = JUndefined \/ (exists s, sp = JStr s) ->
  exists s', js_or sp (JStr []) = JStr s'.
Proof.
  intros [-> | [s ->]]; [exists []; reflexivity|].
  destruct s; [exists []|eexists]; reflexivity.
Qed.

(** Property X15: the body of the outbound call reads back: for a prompt
    that is a string and a [systemPrompt] that is absent or a string,
    [JSON.parse] of the body gives the payload itself, so that no
    character of either text can change the structure of what the upstream
    receives. *)
Theorem request_body_reads_back (key p : jsstring) (sp : jsval) :
  sp = JUndefined \/ (exists s, sp = JStr s) ->
  JSON_parse (req_body (sent_request key (JStr p) sp))
  = Some (JObj (payload_of (JStr p) sp)).
Proof.
  intros Hsp. destruct (js_or_string sp Hsp) as [s Hs].
  cbn [req_body sent_request gemini_request]. unfold payload_of.
  rewrite Hs. apply reads_JSON_parse. rewrite stringified_payload.
  eapply (reads_object_2 (lit "contents") (lit "systemInstruction")).
  - apply reads_array_1. apply (reads_object_1 (lit "parts")).
    apply reads_array_1. apply (reads_object_1 (lit "text")).
    apply reads_string.
  - apply (reads_object_1 (lit "parts")).
    apply reads_array_1. apply (reads_object_1 (lit "text")).
    apply reads_string.
Qed.

(** ** The properties at sample requests *)

(** The round trip of the specification: prompt [hello], no
    [systemPrompt], an upstream that answers with one candidate whose
    text is [world]; the handler answers 200 with [{"text":"world"}]. *)
Lemma hello_world_round_trip :
  handler (stub_world (Some secret) (responds 200 world_answer)) hello
  = (Normal {| statusCode := 200;
               headers := [(lit "Content-Type", lit "application/json")];
               body := jsonlit "{'text':'world'}" |},
     [env_read;
      FetchCall (sent_request secret (JStr (lit "hello")) JUndefined);
      ReadJson]).
Proof.
  apply handler_first_candidate_text
    with (parsed := hello_parsed) (prompt := JStr (lit "hello"))
         (key := secret)
         (r := {| status := 200; text := Normal world_answer |})
         (answer := world_answer) (result := world_result)
         (txt := JStr (lit "world"))
         (c := world_candidate) (content := world_content)
         (part := world_part) (cs := []) (ps := []);
    try reflexivity.
  discriminate.
Defined.

(** No credential: status 500 and the generic body. *)
Lemma hello_without_credential :
  handler (stub_world None (responds 200 world_answer)) hello
  = (Normal (plain 500 (lit "Internal Server Error: API configuration missing.")),
     [env_read;
      ConsoleError
        [LogString (lit "GEMINI_API_KEY is not set in Netlify environment.")]])
  /\ includes (lit "Internal Server Error: API configuration missing.")
              (lit "GEMINI_API_KEY is not set in Netlify environment.") = false.
Proof.
  apply handler_missing_credential
    with (parsed := hello_parsed) (prompt := JStr (lit "hello"));
    reflexivity.
Defined.

(** [systemPrompt: 0] goes upstream as the empty string. *)
Lemma hello_zero_payload :
  exists (resp : Response) (rest : list Effect),
    handler (stub_world (Some secret) (responds 200 world_answer)) hello_zero
    = (Normal resp,
       env_read ::
       FetchCall
         {| req_url := api_url_prefix ++ secret;
            req_method := lit "POST";
            req_headers := [(lit "Content-Type", lit "application/json")];
            req_body :=
              jsonlit "{'contents':[{'parts':[{'text':'hello'}]}],'systemInstruction':{'parts':[{'text':''}]}}" |}
       :: rest)
    /\ no_fetch rest = true.
Proof.
  apply handler_upstream_payload
    with (parsed := hello_zero_parsed) (prompt := JStr (lit "hello"))
         (key := secret);
    try reflexivity.
  discriminate.
Defined.

(** The specification's example: an upstream 429 with body
    [rate limited]. *)
Lemma rate_limited_is_passed_on :
  handler (stub_world (Some secret) (responds 429 (lit "rate limited"))) hello
  = (Normal (plain 429 (lit "Gemini API Error: rate limited")),
     [env_read;
      FetchCall (sent_request secret (JStr (lit "hello")) JUndefined);
      ReadText;
      ConsoleError [LogString (lit "Gemini API error: 429");
                    LogString (lit "rate limited")]])
  /\ includes (lit "Gemini API Error: rate limited") (lit "rate limited") = true.
Proof.
  apply handler_upstream_error
    with (parsed := hello_parsed) (prompt := JStr (lit "hello"))
         (key := secret)
         (r := {| status := 429; text := Normal (lit "rate limited") |});
    try reflexivity.
  discriminate.
Defined.

(** An upstream that answers with an empty candidate list. *)
Lemma empty_candidate_list :
  handler (stub_world (Some secret)
             (responds 200 (jsonlit "{'candidates':[]}"))) hello
  = (Normal (plain 500 (lit "Gemini API returned no candidates.")),
     [env_read;
      FetchCall (sent_request secret (JStr (lit "hello")) JUndefined);
      ReadJson]).
Proof.
  apply handler_no_candidates
    with (parsed := hello_parsed) (prompt := JStr (lit "hello"))
         (key := secret)
         (r := {| status := 200;
                  text := Normal (jsonlit "{'candidates':[]}") |})
         (answer := jsonlit "{'candidates':[]}")
         (result := JObj [(lit "candidates", JArr [])])
         (candidates := JArr []);
    try reflexivity.
  - discriminate.
  - right. reflexivity.
Defined.

(** A GET request. *)
Lemma get_is_not_allowed :
  handler (stub_world (Some secret) (responds 200 world_answer))
    (request (lit "GET") (jsonlit "{'prompt':'hello'}"))
  = (Normal (plain 405 (lit "Method Not Allowed")), []).
Proof.
  apply handler_method_not_allowed. vm_compute. discriminate.
Defined.

(** A body cut short. *)
Lemma truncated_body_is_rejected :
  handler (stub_world (Some secret) (responds 200 world_answer))
    (post (jsonlit "{'prompt':"))
  = (Normal (plain 400 (lit "Bad Request: Invalid JSON.")), []).
Proof.
  apply handler_invalid_json; reflexivity.
Defined.

(** A connection that cannot be made. *)
Lemma fetch_failed :
  handler (stub_world (Some secret) (Rejected (HostError (lit "fetch failed"))))
    hello
  = (Normal (plain 500 (lit "Internal Server Error: fetch failed")),
     [env_read;
      FetchCall (sent_request secret (JStr (lit "hello")) JUndefined);
      ConsoleError [LogString (lit "Error calling Gemini API:");
                    LogError (HostError (lit "fetch failed"))]]).
Proof.
  apply handler_transport_error
    with (parsed := hello_parsed) (prompt := JStr (lit "hello"))
         (key := secret) (e := HostError (lit "fetch failed"));
    try reflexivity.
  discriminate.
Defined.

(** A first candidate without content. *)
Lemma candidate_without_content :
  exists e : JsError,
    first_part_text (JObj []) = Throw e
    /\ handler (stub_world (Some secret)
                  (responds 200 (jsonlit "{'candidates':[{}]}"))) hello
       = (Normal (plain 500
                    (lit "Internal Server Error: "
                     ++ error_message
                          (stub_world (Some secret)
                             (responds 200 (jsonlit "{'candidates':[{}]}"))) e)),
          [env_read;
           FetchCall (sent_request secret (JStr (lit "hello")) JUndefined);
           ReadJson;
           ConsoleError [LogString (lit "Error calling Gemini API:");
                         LogError e]]).
Proof.
  apply handler_misshapen_candidate
    with (parsed := hello_parsed) (prompt := JStr (lit "hello"))
         (key := secret)
         (r := {| status := 200;
                  text := Normal (jsonlit "{'candidates':[{}]}") |})
         (answer := jsonlit "{'candidates':[{}]}")
         (result := JObj [(lit "candidates", JArr [JObj []])])
         (cs := []);
    try reflexivity.
  - discriminate.
  - apply missing_content with (content := JUndefined);
      [reflexivity|left; reflexivity].
Defined.

(** ** Where the code departs from the specification's wording *)

(** Against claim C3 as worded: the body gives [systemPrompt] the value
    [0], and the system instruction sent upstream holds the empty string,
    not [0]. *)
Lemma systemPrompt_zero_is_dropped :
  exists (props : list (jsstring * jsval)) (req : Request)
         (resp : Response) (rest : list Effect),
    event_httpMethod hello_zero = lit "POST"
    /\ JSON_parse (event_body hello_zero) = Some (JObj props)
    /\ lookup (lit "prompt") props = Some (JStr (lit "hello"))
    /\ lookup (lit "systemPrompt") props = Some (JNum pos_zero)
    /\ handler (stub_world (Some secret) (responds 200 world_answer)) hello_zero
       = (Normal resp, env_read :: FetchCall req :: rest)
    /\ req_body req
       = jsonlit "{'contents':[{'parts':[{'text':'hello'}]}],'systemInstruction':{'parts':[{'text':''}]}}"
    /\ JSON_stringify_object
         (claimed_payload (JStr (lit "hello")) (Some (JNum pos_zero)))
       = jsonlit "{'contents':[{'parts':[{'text':'hello'}]}],'systemInstruction':{'parts':[{'text':0}]}}"
    /\ req_body req
       <> JSON_stringify_object
            (claimed_payload (JStr (lit "hello")) (Some (JNum pos_zero))).
Proof.
  eexists _, _, _, _.
  repeat split; try (vm_compute; reflexivity).
  vm_compute. discriminate.
Qed.

(** Against claim C6 as worded: the upstream answers 200 with the JSON
    body [null], which has no candidate list; the read of
    [result.candidates] throws, and the handler answers 500 with the
    message of that error instead of the fixed text. *)
Lemma null_answer_is_an_internal_error :
  exists (resp : Response) (trace : list Effect),
    JSON_parse (lit "null") = Some JNull
    /\ handler (stub_world (Some secret) (responds 200 (lit "null"))) hello
       = (Normal resp, trace)
    /\ statusCode resp = 500%N
    /\ body resp
       = lit "Internal Server Error: Cannot read properties of null (reading 'candidates')"
    /\ body resp <> lit "Gemini API returned no candidates.".
Proof.
  eexists _, _.
  repeat split; try (vm_compute; reflexivity).
  vm_compute. discriminate.
Qed.

(** Against claim C7 as worded: the body of the 405 response is not
    empty, it is the text [Method Not Allowed]. *)
Lemma method_not_allowed_has_a_body :
  exists (resp : Response) (trace : list Effect),
    handler (stub_world None (responds 200 []))
      (request (lit "GET") (jsonlit "{'prompt':'hello'}"))
    = (Normal resp, trace)
    /\ statusCode resp = 405%N
    /\ body resp = lit "Method Not Allowed"
    /\ body resp <> [].
Proof.
  eexists _, _.
  repeat split; try (vm_compute; reflexivity).
  vm_compute. discriminate.
Qed.

(** ** The further properties at sample requests *)

(** A body whose [prompt] is the empty string. *)
Lemma empty_prompt_is_rejected :
  handler (stub_world (Some secret) (responds 200 world_answer))
    (post (jsonlit "{'prompt':''}"))
  = (Normal (plain 400 (jsonlit "Bad Request: 'prompt' is required.")), []).
Proof.
  apply handler_prompt_missing
    with (parsed := JObj [(lit "prompt", JStr [])]);
    try reflexivity.
  discriminate.
Defined.

(** The body [null]. *)
Lemma null_body_is_the_exception :
  JSON_parse (event_body (post (lit "null"))) = Some JNull
  /\ TypeError_destructure JNull = TypeError_destructure JNull
  /\ @nil Effect = [].
Proof.
  apply (handler_throws_only_on_null
           (stub_world (Some secret) (responds 200 world_answer))
           (post (lit "null")) (TypeError_destructure JNull) []).
  reflexivity.
Defined.

(** A credential set to the empty string. *)
Lemma hello_with_empty_credential :
  handler (stub_world (Some []) (responds 200 world_answer)) hello
  = (Normal (plain 500 (lit "Internal Server Error: API configuration missing.")),
     [env_read;
      ConsoleError
        [LogString (lit "GEMINI_API_KEY is not set in Netlify environment.")]]).
Proof.
  apply handler_empty_credential
    with (parsed := hello_parsed) (prompt := JStr (lit "hello"));
    reflexivity.
Defined.

(** An upstream 429 whose body cannot be read: the answer is 500. *)
Lemma broken_body_is_an_internal_error :
  handler (stub_world (Some secret) (broken_body 429)) hello
  = (Normal (plain 500 (lit "Internal Server Error: terminated")),
     [env_read;
      FetchCall (sent_request secret (JStr (lit "hello")) JUndefined);
      ReadText;
      ConsoleError [LogString (lit "Error calling Gemini API:");
                    LogError (HostError (lit "terminated"))]]).
Proof.
  apply handler_unreadable_answer
    with (parsed := hello_parsed) (prompt := JStr (lit "hello"))
         (key := secret)
         (r := {| status := 429;
                  text := Throw (HostError (lit "terminated")) |})
         (e := HostError (lit "terminated"));
    try reflexivity.
  discriminate.
Defined.

(** An upstream 200 whose body is a page of HTML. *)
Lemma html_answer_is_an_internal_error :
  handler (stub_world (Some secret) (responds 200 (lit "<html></html>"))) hello
  = (Normal (plain 500 (lit "Internal Server Error: Unexpected token in JSON")),
     [env_read;
      FetchCall (sent_request secret (JStr (lit "hello")) JUndefined);
      ReadJson;
      ConsoleError [LogString (lit "Error calling Gemini API:");
                    LogError (SyntaxError_json (lit "<html></html>"))]]).
Proof.
  apply handler_answer_not_json
    with (parsed := hello_parsed) (prompt := JStr (lit "hello"))
         (key := secret)
         (r := {| status := 200; text := Normal (lit "<html></html>") |})
         (answer := lit "<html></html>");
    try reflexivity.
  discriminate.
Defined.

(** The 200 answer to [hello] comes from the upstream's answer. *)
Lemma hello_world_is_genuine :
  exists (txt : jsval) (req : Request) (r : Upstream)
         (answer : jsstring) (result : jsval),
    world_response = success txt
    /\ world_effects = [env_read; FetchCall req; ReadJson]
    /\ upstream (stub_world (Some secret) (responds 200 world_answer)) req
       = Responded r
    /\ ok r = true
    /\ text r = Normal answer
    /\ JSON_parse answer = Some result
    /\ fst (answer_from result) = Normal (success txt).
Proof.
  apply (handler_success_is_genuine
           (stub_world (Some secret) (responds 200 world_answer)) hello
           world_response world_effects);
    reflexivity.
Defined.

(** The status 429 is the upstream's. *)
Lemma rate_limited_status :
  In (statusCode rate_limited_response) [200; 400; 405; 500]%N
  \/ exists (req : Request) (r : Upstream),
       In (FetchCall req) rate_limited_effects
       /\ upstream (stub_world (Some secret)
                      (responds 429 (lit "rate limited"))) req
          = Responded r
       /\ ok r = false
       /\ statusCode rate_limited_response = status r.
Proof.
  apply (handler_status_codes
           (stub_world (Some secret) (responds 429 (lit "rate limited")))
           hello rate_limited_response rate_limited_effects).
  reflexivity.
Defined.

(** The 429 answer has no headers. *)
Lemma rate_limited_headers :
  headers rate_limited_response
  = if (statusCode rate_limited_response =? 200)%N
    then json_content_type else [].
Proof.
  apply (handler_headers
           (stub_world (Some secret) (responds 429 (lit "rate limited")))
           hello rate_limited_response rate_limited_effects).
  reflexivity.
Defined.

(** The outbound call for [hello]. *)
Lemma hello_fetch_is_guarded :
  event_httpMethod hello = lit "POST"
  /\ exists (parsed : jsval) (key : jsstring),
       JSON_parse (event_body hello) = Some parsed
       /\ truthy (prop parsed (lit "prompt")) = true
       /\ env_GEMINI_API_KEY
            (stub_world (Some secret) (responds 200 world_answer))
          = Some key
       /\ key <> []
       /\ sent_request secret (JStr (lit "hello")) JUndefined
          = sent_request key (prop parsed (lit "prompt"))
              (prop parsed (lit "systemPrompt")).
Proof.
  apply (handler_fetch_is_guarded
           (stub_world (Some secret) (responds 200 world_answer)) hello).
  right. left. reflexivity.
Defined.

(** Two credentials, the same upstream answer, the same response. *)
Lemma two_credentials_one_answer :
  fst (handler (stub_world (Some secret) (responds 200 world_answer)) hello)
  = fst (handler (stub_world (Some (lit "another-key"))
                    (responds 200 world_answer)) hello)
  /\ without_fetch
       (snd (handler (stub_world (Some secret) (responds 200 world_answer))
               hello))
     = without_fetch
         (snd (handler (stub_world (Some (lit "another-key"))
                          (responds 200 world_answer)) hello)).
Proof.
  apply credential_only_in_request
    with (parsed := hello_parsed) (prompt := JStr (lit "hello"))
         (k1 := secret) (k2 := lit "another-key");
    try reflexivity; discriminate.
Defined.

(** An upstream that echoes the URL in a 403 body: the credential is in
    the answer. *)
Lemma echoed_credential_reaches_client :
  exists (resp : Response) (t : list Effect),
    handler (world_of (Some secret) echo_url) hello = (Normal resp, t)
    /\ statusCode resp = 403%N
    /\ includes (body resp) secret = true.
Proof.
  apply upstream_text_reaches_client
    with (parsed := hello_parsed) (prompt := JStr (lit "hello"))
         (key := secret)
         (r := {| status := 403;
                  text := Normal (api_url_prefix ++ secret) |})
         (errorText := api_url_prefix ++ secret);
    try reflexivity.
  discriminate.
Defined.

(** Fields other than [prompt] and [systemPrompt] change nothing. *)
Lemma other_fields_are_ignored :
  handler (stub_world (Some secret) (responds 200 world_answer)) hello_more
  = handler (stub_world (Some secret) (responds 200 world_answer)) hello.
Proof.
  apply handler_reads_two_fields
    with (p1 := JObj [(lit "model", JStr (lit "other"));
                      (lit "prompt", JStr (lit "hello"));
                      (lit "temperature", JNum (number_of_N 2))])
         (p2 := hello_parsed);
    try reflexivity; discriminate.
Defined.

(** The request for [hello] without a [systemPrompt]. *)
Lemma hello_request_reads_back :
  JSON_parse (req_body (sent_request secret (JStr (lit "hello")) JUndefined))
  = Some (JObj (payload_of (JStr (lit "hello")) JUndefined)).
Proof.
  apply request_body_reads_back. left. reflexivity.
Defined.
